(** * Email Automation Tool: the core logic of [main.py], embedded in Rocq

    The development follows [src/main.py]: the e-mail format check
    ([validate_email]), placeholder extraction ([extract_placeholders]),
    placeholder substitution ([replace_placeholders]), recipient table
    validation ([validate_csv_columns]), sending one message ([send_email])
    and the "Send All Emails" branch of [main].

    Python strings are sequences of code points.  A character is modelled by
    Stdlib's 8-bit [ascii], read as a code point below U+0100; on that range
    the character classes of Python's [re] are given exactly. *)

From Stdlib Require Import Ascii String DecimalString.
From stdpp Require Import base option list gmap strings.
From Equations Require Import Equations.

Local Open Scope char_scope.
Local Open Scope list_scope.

(** ** Strings *)

Abbreviation str := (list ascii).

(** A Python string literal. *)
Definition lit (s : string) : str := list_ascii_of_string s.

(** The line feed character, written "\n" in the source. *)
Definition LF : ascii := "010".

Module Chars.

(** [lo <= c <= hi] on code points: a range [lo-hi] of a character class. *)
Definition in_range (lo hi c : ascii) : bool :=
  (nat_of_ascii lo <=? nat_of_ascii c)%nat && (nat_of_ascii c <=? nat_of_ascii hi)%nat.

(** Membership in an explicit list of characters of a class. *)
Definition one_of (cs : string) (c : ascii) : bool :=
  existsb (Ascii.eqb c) (lit cs).

Definition lower : ascii -> bool := in_range "a" "z".
Definition upper : ascii -> bool := in_range "A" "Z".
Definition digit : ascii -> bool := in_range "0" "9".

(** [[a-zA-Z]] *)
Definition alpha (c : ascii) : bool := lower c || upper c.

(** [[a-zA-Z0-9._%+-]] *)
Definition local_part (c : ascii) : bool :=
  lower c || upper c || digit c || one_of "._%+-" c.

(** [[a-zA-Z0-9.-]] *)
Definition domain_part (c : ascii) : bool :=
  lower c || upper c || digit c || one_of ".-" c.

(** [[A-Za-z0-9_]]: what [\w] is for ASCII-only matching. *)
Definition ascii_word (c : ascii) : bool :=
  lower c || upper c || digit c || Ascii.eqb c "_".

(** The alphanumeric code points of U+0080..U+00FF ([str.isalnum]):
    U+00AA, U+00B2, U+00B3, U+00B5, U+00B9, U+00BA, U+00BC..U+00BE,
    U+00C0..U+00D6, U+00D8..U+00F6, U+00F8..U+00FF. *)
Definition latin1_alnum (c : ascii) : bool :=
  existsb (Ascii.eqb c) ["170"; "178"; "179"; "181"; "185"; "186"]
  || in_range "188" "190" c || in_range "192" "214" c
  || in_range "216" "246" c || in_range "248" "255" c.

(** [\w] of a [str] pattern (Python 3: Unicode matching is the default):
    every alphanumeric character and the underscore. *)
Definition word (c : ascii) : bool := ascii_word c || latin1_alnum c.

End Chars.

(** ** Regular expressions

    The two patterns of the source are sequences of literal characters and
    greedy repetitions [cls{n,}] of a character class, with an optional [$].
    Matching is by backtracking; the list of all matches is produced in the
    order in which the backtracking engine of [re] tries them, so that the
    match [re] returns is the first one. *)

Module Regex.

Inductive node : Type :=
| Lit (c : ascii)                          (* one literal character *)
| AtLeast (n : nat) (cls : ascii -> bool)  (* cls{n,}, greedy; [+] is {1,} *)
| Dollar.                                  (* $ *)

Definition regex := list node.

(** Where [$] matches (no MULTILINE flag): at the end of the string and
    just before a line feed that is the last character of the string. *)
Definition at_dollar (s : str) : bool :=
  match s with
  | [] => true
  | [c] => Ascii.eqb c LF
  | _ => false
  end.

(** All ways of taking a run of [cls] characters off the front of [s], the
    longest first: (run, rest). *)
Fixpoint runs (cls : ascii -> bool) (s : str) : list (str * str) :=
  match s with
  | c :: s' =>
      if cls c
      then map (fun '(a, r) => (c :: a, r)) (runs cls s') ++ [([], s)]
      else [([], s)]
  | [] => [([], [])]
  end.

(** All matches of [p] at the front of [s]: the text each node consumed,
    and the unconsumed rest. *)
Fixpoint match_all (p : regex) (s : str) : list (list str * str) :=
  match p with
  | [] => [([], s)]
  | Lit c :: p' =>
      match s with
      | c' :: s' =>
          if Ascii.eqb c c'
          then map (fun '(segs, rest) => ([c] :: segs, rest)) (match_all p' s')
          else []
      | [] => []
      end
  | AtLeast n cls :: p' =>
      flat_map (fun '(seg, r) =>
                  if (n <=? length seg)%nat
                  then map (fun '(segs, rest) => (seg :: segs, rest)) (match_all p' r)
                  else [])
               (runs cls s)
  | Dollar :: p' =>
      if at_dollar s
      then map (fun '(segs, rest) => ([] :: segs, rest)) (match_all p' s)
      else []
  end.

(** [re.match(p, s)]: a match at index 0 only, where a leading [^] always
    holds (it is therefore not a node); [None] when there is none. *)
Definition re_match (p : regex) (s : str) : option (list str * str) :=
  head (match_all p s).

(** [re.findall(p, s)] for a pattern with one capturing group, the node
    number [g]: scan from the left; after a match the scan resumes where
    the match ended (one character further when the match is empty). *)
Equations? findall (p : regex) (g : nat) (s : str) : list str by wf (length s) lt :=
  findall p g [] :=
    match re_match p [] with
    | Some (segs, _) => [nth g segs []]
    | None => []
    end;
  findall p g (c :: s') :=
    match re_match p (c :: s') with
    | Some (segs, _) =>
        nth g segs [] :: findall p g (drop (length (concat segs) - 1) s')
    | None => findall p g s'
    end.
Proof. all: simpl; try rewrite length_drop; lia. Qed.

End Regex.

Import Regex.

(** ** [validate_email] (lines 12-14) *)

(** [^[a-zA-Z0-9._%+-]+@[a-zA-Z0-9.-]+\.[a-zA-Z]{2,}$] *)
Definition email_pattern : regex :=
  [AtLeast 1 Chars.local_part; Lit "@"; AtLeast 1 Chars.domain_part; Lit ".";
   AtLeast 2 Chars.alpha; Dollar].

Definition validate_email (email : str) : bool :=
  match re_match email_pattern email with
  | Some _ => true
  | None => false
  end.

(** ** [extract_placeholders] (lines 16-18) *)

(** [\{\{(\w+)\}\}]; the group is node 2. *)
Definition placeholder_pattern : regex :=
  [Lit "{"; Lit "{"; AtLeast 1 Chars.word; Lit "}"; Lit "}"].

(** [list(set(placeholders))]: the order of the result is the iteration
    order of a set, which the language leaves unspecified; only membership
    and the absence of duplicates are meaningful. *)
Definition extract_placeholders (template : str) : list str :=
  elements (list_to_set (findall placeholder_pattern 2 template) : gset str).


(** ** Table cells and [str()]

    A cell of the recipient table, as [pandas.read_csv] produces it: a
    string, a missing value (NaN), or a number or boolean of a column that
    was parsed as such.  The last kind is kept as the text [str()] gives for
    it, which is all the program does with such a value. *)

Inductive cell : Type :=
| CStr (s : str)
| CNull
| CNum (repr : str).

(** [str(value)] *)
Definition py_str (value : cell) : str :=
  match value with
  | CStr s => s
  | CNull => lit "nan"
  | CNum repr => repr
  end.

(** A Python [dict] with string keys: insertion-ordered, so an association
    list in insertion order; lookup finds the entry of a key. *)
Abbreviation dict := (list (str * cell)).

Fixpoint dict_get (d : dict) (key : str) : option cell :=
  match d with
  | [] => None
  | (k, v) :: d' => if decide (k = key) then Some v else dict_get d' key
  end.

Definition dict_keys (d : dict) : list str := map fst d.

(** The dictionary without the entry of [key]. *)
Definition dict_without (key : str) (d : dict) : dict :=
  filter (fun kv => kv.1 <> key) d.

(** ** [str.replace] and the [in] operator on strings *)

(** [s.startswith(old)] *)
Fixpoint starts_with (old s : str) : bool :=
  match old, s with
  | [], _ => true
  | o :: old', c :: s' => Ascii.eqb o c && starts_with old' s'
  | _ :: _, [] => false
  end.

(** [old in s] *)
Fixpoint contains (old s : str) : bool :=
  starts_with old s ||
  match s with
  | [] => false
  | _ :: s' => contains old s'
  end.

(** [s.replace(old, new)] for a non-empty [old]: the occurrences of [old]
    are found from the left, each search starting where the previous
    occurrence ended. *)
Equations? replace_scan (old new s : str) : str by wf (length s) lt :=
  replace_scan old new [] := [];
  replace_scan old new (c :: s') :=
    if starts_with old (c :: s')
    then new ++ replace_scan old new (drop (length old - 1) s')
    else c :: replace_scan old new s'.
Proof. all: simpl; try rewrite length_drop; lia. Qed.

(** [s.replace(old, new)]; an empty [old] matches before every character
    and at the end. *)
Definition str_replace (s old new : str) : str :=
  match old with
  | [] => new ++ flat_map (fun c => c :: new) s
  | _ :: _ => replace_scan old new s
  end.

(** ** [replace_placeholders] (lines 20-25) *)

(** The f-string of line 23: two opening braces, the key, two closing
    braces. *)
Definition token (key : str) : str := lit "{{" ++ key ++ lit "}}".

Definition replace_placeholders (template : str) (data : dict) : str :=
  fold_left (fun result '(key, value) => str_replace result (token key) (py_str value))
            data template.

(** ** Exceptions

    A computation returns a value or raises an exception (of class
    [Exception]); the exception is represented by its [str()]. *)

Inductive result (A : Type) : Type :=
| Ret (a : A)
| Raise (e : str).
Arguments Ret {A} a.
Arguments Raise {A} e.

Definition rbind {A B} (m : result A) (f : A -> result B) : result B :=
  match m with
  | Ret a => f a
  | Raise e => Raise e
  end.

(** ** The recipient table *)

(** A [DataFrame] read from a CSV file: the column names of the header
    ([read_csv] makes them distinct) and the rows in file order, each row
    the cells of the columns in order; a cell a row does not have is
    missing. *)
Record DataFrame : Type := {
  columns : list str;
  rows : list (list cell)
}.

(** [row.to_dict()] for a row of a table with columns [cols]. *)
Fixpoint to_dict (cols : list str) (row : list cell) : dict :=
  match cols with
  | [] => []
  | col :: cols' => (col, default CNull (head row)) :: to_dict cols' (tail row)
  end.

(** [df.iterrows()]: the rows with their index labels 0, 1, ... *)
Definition iterrows (df : DataFrame) : list (nat * dict) :=
  imap (fun idx row => (idx, to_dict (columns df) row)) (rows df).

(** [row[key]]; a key that is no column raises [KeyError]. *)
Definition row_getitem (row : dict) (key : str) : result cell :=
  match dict_get row key with
  | Some v => Ret v
  | None => Raise (lit "'" ++ key ++ lit "'")
  end.

(** The cells of a column, in row order. *)
Definition column (df : DataFrame) (col : str) : list cell :=
  map (fun row => default CNull (dict_get (to_dict (columns df) row) col)) (rows df).

(** [df[col]]; a name that is no column raises [KeyError]. *)
Definition df_getitem (df : DataFrame) (col : str) : result (list cell) :=
  if decide (col ∈ columns df)
  then Ret (column df col)
  else Raise (lit "'" ++ col ++ lit "'").

(** [series.isnull()] and [series == ''], cell by cell. *)
Definition isnull (c : cell) : bool :=
  match c with
  | CNull => true
  | _ => false
  end.

Definition is_empty_str (c : cell) : bool :=
  match c with
  | CStr [] => true
  | _ => false
  end.

(** [", ".join(parts)] *)
Fixpoint join (sep : str) (parts : list str) : str :=
  match parts with
  | [] => []
  | [p] => p
  | p :: parts' => p ++ sep ++ join sep parts'
  end.

(** [str(n)] for a natural number. *)
Definition str_of_nat (n : nat) : str :=
  lit (NilEmpty.string_of_uint (Nat.to_uint n)).

(** ** [validate_csv_columns] (lines 27-46) *)

Definition required_columns : list str := [lit "name"; lit "email"].

(** Lines 34-36: the first required column with a missing or empty value. *)
Fixpoint first_empty_column (df : DataFrame) (cols : list str) : result (option str) :=
  match cols with
  | [] => Ret None
  | col :: cols' =>
      rbind (df_getitem df col) (fun series =>
        if existsb isnull series || existsb is_empty_str series
        then Ret (Some col)
        else first_empty_column df cols')
  end.

(** [validate_email] applied to a cell: [re.match] raises [TypeError] on a
    value that is not a string (the text is that of Python 3.10; later
    versions append the type of the value). *)
Definition validate_email_cell (email : cell) : result bool :=
  match email with
  | CStr s => Ret (validate_email s)
  | _ => Raise (lit "expected string or bytes-like object")
  end.

(** Lines 38-41: the loop over [enumerate(df['email'])], from index [idx]. *)
Fixpoint invalid_emails (idx : nat) (emails : list cell) : result (list str) :=
  match emails with
  | [] => Ret []
  | email :: emails' =>
      rbind (validate_email_cell email) (fun ok =>
      rbind (invalid_emails (S idx) emails') (fun later =>
        Ret (if ok then later
             else (lit "Row " ++ str_of_nat (idx + 1) ++ lit ": " ++ py_str email) :: later)))
  end.

Definition validate_csv_columns (df : DataFrame) : result (bool * str) :=
  let missing_columns := filter (fun col => col ∉ columns df) required_columns in
  match missing_columns with
  | _ :: _ =>
      Ret (false, lit "Missing required columns: " ++ join (lit ", ") missing_columns)
  | [] =>
      rbind (first_empty_column df required_columns) (fun empty =>
        match empty with
        | Some col => Ret (false, lit "Column '" ++ col ++ lit "' contains empty values")
        | None =>
            rbind (df_getitem df (lit "email")) (fun emails =>
            rbind (invalid_emails 0 emails) (fun invalid =>
              match invalid with
              | _ :: _ =>
                  Ret (false, lit "Invalid email addresses found:" ++ [LF]
                              ++ join [LF] (take 5 invalid))
              | [] => Ret (true, lit "CSV validation successful")
              end))
        end)
  end.

(** ** The effects of the send branch

    The branch calls into [smtplib] and into the presentation layer
    ([streamlit]); each such call returns or raises.  What these calls do is
    given by an environment; the calls made are recorded in a trace. *)

(** The MIME message of lines 50-58. *)
Record Message : Type := {
  msg_from : str;
  msg_to : cell;
  msg_subject : str;
  msg_body : str;
  msg_html : bool
}.

(** An entry of [st.session_state.email_results] (lines 191-196, 199-204). *)
Record SendOutcome : Type := {
  recipient : cell;
  name : cell;
  success : bool;
  message : str
}.

Inductive event : Type :=
| EvConnect                        (* smtplib.SMTP('smtp.gmail.com', 587) *)
| EvStartTLS                       (* server.starttls() *)
| EvLogin (user password : str)    (* server.login(sender_email, sender_password) *)
| EvSend (idx : nat) (m : Message) (* server.send_message(msg), for row idx *)
| EvQuit                           (* server.quit() *)
| EvError (text : str).            (* st.error(text) *)

(** The behaviour of the external calls: [None] when the call returns,
    [Some e] when it raises an exception whose [str()] is [e]. *)
Record Env : Type := {
  smtp_connect : option str;
  smtp_starttls : option str;
  smtp_login : str -> str -> option str;
  (* lines 50-60 for the row with index [idx]: building the message and
     [server.send_message] *)
  smtp_send : nat -> Message -> option str;
  smtp_quit : option str;
  (* [st.progress(0)], [st.empty()] (lines 180-181) *)
  ui_setup : option str;
  (* [progress_bar.progress(progress)] for the row with index [idx]
     (line 187) *)
  ui_progress : nat -> option str;
  (* [status_text.text(...)] for the row with index [idx] (line 188) *)
  ui_status : nat -> option str;
  (* [status_text.text], [progress_bar.progress(1.0)] (lines 207-208) *)
  ui_done : option str
}.

Record State : Type := {
  email_results : list SendOutcome;
  trace : list event
}.

Module Eff.

(** State passing with exceptions: the state survives a raise. *)
Definition M (A : Type) : Type := State -> result A * State.

Definition ret {A} (a : A) : M A := fun st => (Ret a, st).

Definition bind {A B} (m : M A) (f : A -> M B) : M B :=
  fun st =>
    match m st with
    | (Ret a, st') => f a st'
    | (Raise e, st') => (Raise e, st')
    end.

(** [try: body except Exception as e: handler] *)
Definition try_except {A} (body : M A) (handler : str -> M A) : M A :=
  fun st =>
    match body st with
    | (Ret a, st') => (Ret a, st')
    | (Raise e, st') => handler e st'
    end.

Definition lift {A} (r : result A) : M A := fun st => (r, st).

Definition emit (ev : event) : M unit :=
  fun st => (Ret tt, {| email_results := email_results st; trace := trace st ++ [ev] |}).

(** A call that returns or raises as the environment says. *)
Definition outcome (o : option str) : M unit :=
  fun st =>
    match o with
    | None => (Ret tt, st)
    | Some e => (Raise e, st)
    end.

(** An external call recorded in the trace. *)
Definition call (ev : event) (o : option str) : M unit :=
  bind (emit ev) (fun _ => outcome o).

(** [st.session_state.email_results = results] *)
Definition set_results (results : list SendOutcome) : M unit :=
  fun st => (Ret tt, {| email_results := results; trace := trace st |}).

(** [st.session_state.email_results.append(entry)] *)
Definition append_result (entry : SendOutcome) : M unit :=
  fun st => (Ret tt, {| email_results := email_results st ++ [entry]; trace := trace st |}).

(** [for x in l: body(x)] *)
Fixpoint for_each {A} (l : list A) (body : A -> M unit) : M unit :=
  match l with
  | [] => ret tt
  | x :: l' => bind (body x) (fun _ => for_each l' body)
  end.

End Eff.

Import Eff.

Declare Scope eff_scope.
Delimit Scope eff_scope with eff.
Notation "x <- m ;; k" := (bind m (fun x => k))
  (at level 100, m at next level, k at level 200, right associativity) : eff_scope.
Notation "m ;; k" := (bind m (fun _ => k))
  (at level 100, k at level 200, right associativity) : eff_scope.
Local Open Scope eff_scope.

(** ** [send_email] (lines 48-63) *)

Definition send_email (env : Env) (idx : nat) (sender_email : str) (recipient_email : cell)
    (subject body : str) (is_html : bool) : M (bool * str) :=
  try_except
    (let msg := {| msg_from := sender_email; msg_to := recipient_email;
                   msg_subject := subject; msg_body := body; msg_html := is_html |} in
     call (EvSend idx msg) (smtp_send env idx msg) ;;
     ret (true, lit "Email sent successfully"))
    (fun e => ret (false, lit "Failed to send email: " ++ e)).

(** ** The "Send All Emails" branch of [main] (lines 169-210) *)

(** The body of the loop over the rows (lines 185-204); the pause of line
    197 changes nothing in the state. *)
Definition send_row (env : Env) (template_content : str) (is_html : bool)
    (sender_email email_subject : str) (idx : nat) (row : dict) : M unit :=
  try_except
    (outcome (ui_progress env idx) ;;
     _ <- lift (row_getitem row (lit "email")) ;;
     outcome (ui_status env idx) ;;
     let personalized_content := replace_placeholders template_content row in
     to <- lift (row_getitem row (lit "email")) ;;
     sent <- send_email env idx sender_email to email_subject personalized_content is_html ;;
     r <- lift (row_getitem row (lit "email")) ;;
     n <- lift (row_getitem row (lit "name")) ;;
     append_result {| recipient := r; name := n; success := sent.1; message := sent.2 |})
    (fun e =>
     r <- lift (row_getitem row (lit "email")) ;;
     n <- lift (row_getitem row (lit "name")) ;;
     append_result {| recipient := r; name := n; success := false;
                      message := lit "Error: " ++ e |}).

(** The branch taken when "Send All Emails" is pressed; [is_html] is
    whether the name of the template file ends in [.html] (line 182). *)
Definition main_send_all (env : Env) (template_content : str) (is_html : bool)
    (df : DataFrame) (sender_email sender_password email_subject : str) : M unit :=
  set_results [] ;;
  if negb (validate_email sender_email)
  then call (EvError (lit "Invalid sender email address")) None
  else
    try_except
      (call EvConnect (smtp_connect env) ;;
       call EvStartTLS (smtp_starttls env) ;;
       call (EvLogin sender_email sender_password)
            (smtp_login env sender_email sender_password) ;;
       outcome (ui_setup env) ;;
       for_each (iterrows df)
                (fun '(idx, row) =>
                   send_row env template_content is_html sender_email email_subject idx row) ;;
       call EvQuit (smtp_quit env) ;;
       outcome (ui_done env))
      (fun e => call (EvError (lit "SMTP connection error: " ++ e)) None).

(** The state in which the branch starts, and the state it ends in. *)
Definition initial_state (previous : list SendOutcome) : State :=
  {| email_results := previous; trace := [] |}.

Definition run (env : Env) (template_content : str) (is_html : bool) (df : DataFrame)
    (sender_email sender_password email_subject : str) (previous : list SendOutcome) : State :=
  (main_send_all env template_content is_html df sender_email sender_password email_subject
                 (initial_state previous)).2.

(** ** Specification-level predicates *)

(** [old] occurs in [s] as a substring. *)
Definition occurs (old s : str) : Prop := exists a b, s = a ++ old ++ b.

(** What a match of a pattern is: the text consumed by each node, in order,
    and the conditions of each node on its text. *)
Fixpoint fits (p : regex) (segs : list str) (rest : str) : Prop :=
  match p, segs with
  | [], [] => True
  | Lit c :: p', seg :: segs' => seg = [c] /\ fits p' segs' rest
  | AtLeast n cls :: p', seg :: segs' =>
      n <= length seg /\ forallb cls seg = true /\ fits p' segs' rest
  | Dollar :: p', seg :: segs' =>
      seg = [] /\ at_dollar (concat segs' ++ rest) = true /\ fits p' segs' rest
  | _, _ => False
  end.

(** A character other than the braces, and a string without braces. *)
Definition not_brace (c : ascii) : bool :=
  negb (Ascii.eqb c "{") && negb (Ascii.eqb c "}").

Definition no_brace (k : str) : bool := forallb not_brace k.

(** A placeholder name as the pattern of [extract_placeholders] has it: one
    or more [\w] characters. *)
Definition is_name (x : str) : Prop := x <> [] /\ forallb Chars.word x = true.

(** Following the spec's words, a placeholder name: [[A-Za-z0-9_]+]. *)
Definition is_ascii_name (x : str) : Prop :=
  x <> [] /\ forallb Chars.ascii_word x = true.

(** The code points below U+0080 ([str.isascii]). *)
Definition is_ascii (c : ascii) : bool := (nat_of_ascii c <? 128)%nat.

(** [key in d] *)
Definition dict_has (d : dict) (key : str) : bool :=
  match dict_get d key with
  | Some _ => true
  | None => false
  end.

(** The text [s] contains no token of a key of [d]. *)
Definition no_token_of (d : dict) (s : str) : bool :=
  forallb (fun key => negb (contains (token key) s)) (dict_keys d).

(** A missing value or an empty string; a column with such a cell. *)
Definition blank (c : cell) : bool := isnull c || is_empty_str c.

Definition has_blank (cells : list cell) : bool := existsb blank cells.

(** A cell that holds a string; a cell that holds a string passing the
    format check. *)
Definition is_text (c : cell) : bool :=
  match c with
  | CStr _ => true
  | _ => false
  end.

Definition passes_format (c : cell) : bool :=
  match c with
  | CStr s => validate_email s
  | _ => false
  end.

(** The rows whose e-mail fails the format check, numbered from [first]:
    (row number, e-mail), in row order. *)
Definition offending (first : nat) (emails : list cell) : list (nat * str) :=
  List.filter (fun p => negb (validate_email p.2))
              (zip (seq first (length emails)) (map py_str emails)).

(** The line of the validation message for an offending row. *)
Definition report_line (p : nat * str) : str :=
  lit "Row " ++ str_of_nat p.1 ++ lit ": " ++ p.2.

(** The cell of a column in a row of the table. *)
Definition row_cell (df : DataFrame) (row : list cell) (col : str) : cell :=
  default CNull (dict_get (to_dict (columns df) row) col).

(** The texts reported with [st.error], and the rows for which a send was
    attempted, in the order of a trace. *)
Definition errors_of (tr : list event) : list str :=
  flat_map (fun ev => match ev with EvError text => [text] | _ => [] end) tr.

Definition sends_of (tr : list event) : list nat :=
  flat_map (fun ev => match ev with EvSend idx _ => [idx] | _ => [] end) tr.

(** The message sent for a row, what processing the row records, and the
    calls it makes. *)
Definition row_message (template_content : str) (is_html : bool)
    (sender_email email_subject : str) (row : dict) : Message :=
  {| msg_from := sender_email;
     msg_to := default CNull (dict_get row (lit "email"));
     msg_subject := email_subject;
     msg_body := replace_placeholders template_content row;
     msg_html := is_html |}.

Definition row_outcome (env : Env) (template_content : str) (is_html : bool)
    (sender_email email_subject : str) (p : nat * dict) : SendOutcome :=
  let msg := row_message template_content is_html sender_email email_subject p.2 in
  let failure :=
    match ui_progress env p.1, ui_status env p.1 with
    | Some e, _ | None, Some e => Some (lit "Error: " ++ e)
    | None, None =>
        match smtp_send env p.1 msg with
        | Some e => Some (lit "Failed to send email: " ++ e)
        | None => None
        end
    end in
  {| recipient := default CNull (dict_get p.2 (lit "email"));
     name := default CNull (dict_get p.2 (lit "name"));
     success := match failure with None => true | Some _ => false end;
     message := default (lit "Email sent successfully") failure |}.

Definition row_events (env : Env) (template_content : str) (is_html : bool)
    (sender_email email_subject : str) (p : nat * dict) : list event :=
  match ui_progress env p.1, ui_status env p.1 with
  | None, None =>
      [EvSend p.1 (row_message template_content is_html sender_email email_subject p.2)]
  | _, _ => []
  end.

(** Following the spec's words, the shape [local@domain.tld] of the whole
    string: one or more characters of [[A-Za-z0-9._%+-]], an [@], one or more
    characters of [[A-Za-z0-9.-]], a dot, two or more letters. *)
Definition email_shape (s : str) : Prop :=
  exists loc dom tld,
    s = loc ++ "@" :: dom ++ "." :: tld /\
    loc <> [] /\ forallb Chars.local_part loc = true /\
    dom <> [] /\ forallb Chars.domain_part dom = true /\
    2 <= length tld /\ forallb Chars.alpha tld = true.

(** ** The results section of [main] (lines 212-223) *)

(** The comprehensions of lines 214-215. *)
Definition successful (email_results : list SendOutcome) : list SendOutcome :=
  List.filter (fun r => success r) email_results.

Definition failed (email_results : list SendOutcome) : list SendOutcome :=
  List.filter (fun r => negb (success r)) email_results.

(** The metrics of lines 219-223: "Total Sent", "Successful", "Failed". *)
Definition metrics (email_results : list SendOutcome) : nat * nat * nat :=
  (length email_results, length (successful email_results), length (failed email_results)).

(** ** The preview of [main] (lines 146-158) *)

Module Preview.

(** The dictionary stored in [st.session_state.preview_data]. *)
Record data : Type := {
  recipient : dict;
  content : str;
  is_html : bool
}.

End Preview.

(** [df.iloc[0].to_dict()]; on a table without rows [iloc] raises
    [IndexError]. *)
Definition first_row (df : DataFrame) : result dict :=
  match rows df with
  | [] => Raise (lit "single positional indexer is out-of-bounds")
  | row :: _ => Ret (to_dict (columns df) row)
  end.

(** Lines 150-156, the body of the [try] of "Generate Preview (First Row)". *)
Definition generate_preview (template_content : str) (is_html : bool) (df : DataFrame)
    : result Preview.data :=
  rbind (first_row df) (fun first_row =>
    let preview_content := replace_placeholders template_content first_row in
    Ret {| Preview.recipient := first_row;
           Preview.content := preview_content;
           Preview.is_html := is_html |}).

(** ** The "Test Connection" button of [main] (lines 80-95) *)

(** What the branch shows.  The texts of lines 91 and 93 begin with a symbol
    above U+00FF, so the notices are kept by kind, the failure with the text
    of the exception. *)
Inductive test_notice : Type :=
| MissingCredentials          (* st.warning("Please enter both email and password") *)
| InvalidFormat               (* st.error("Invalid email address format") *)
| ConnectionSuccessful        (* st.success(".. Connection successful!") *)
| ConnectionFailed (e : str). (* st.error(f".. Connection failed: {str(e)}") *)

(** The calls of lines 87-90. *)
Definition test_session (env : Env) (sender_email sender_password : str) : M unit :=
  call EvConnect (smtp_connect env) ;;
  call EvStartTLS (smtp_starttls env) ;;
  call (EvLogin sender_email sender_password)
       (smtp_login env sender_email sender_password) ;;
  call EvQuit (smtp_quit env).

(** The branch: the calls made to the transport, and the notice shown.  A
    string is true when it is not empty. *)
Definition main_test_connection (env : Env) (sender_email sender_password : str)
    : list event * test_notice :=
  match sender_email, sender_password with
  | _ :: _, _ :: _ =>
      if negb (validate_email sender_email)
      then ([], InvalidFormat)
      else
        match test_session env sender_email sender_password (initial_state []) with
        | (Ret _, st) => (trace st, ConnectionSuccessful)
        | (Raise e, st) => (trace st, ConnectionFailed e)
        end
  | _, _ => ([], MissingCredentials)
  end.

(** ** Templates as sequences of chunks *)

(** A piece of a template: literal text, or the token of a name. *)
Inductive chunk : Type :=
| Text (w : str)
| Slot (n : str).

Definition chunk_text (ch : chunk) : str :=
  match ch with
  | Text w => w
  | Slot n => token n
  end.

(** The template a sequence of chunks spells. *)
Definition template_of (chunks : list chunk) : str := concat (map chunk_text chunks).

(** A text without an opening brace. *)
Definition no_open (w : str) : bool := forallb (fun c => negb (Ascii.eqb c "{")) w.

(** Literal text has no opening brace, and names have no brace. *)
Definition plain_chunk (ch : chunk) : bool :=
  match ch with
  | Text w => no_open w
  | Slot n => no_brace n
  end.

(** What a chunk becomes when the row fills it: the stringified value of
    the name, or the token itself when the row has no such key. *)
Definition fill (data : dict) (ch : chunk) : str :=
  match ch with
  | Text w => w
  | Slot n =>
      match dict_get data n with
      | Some v => py_str v
      | None => token n
      end
  end.

(** One turn of the loop of [replace_placeholders], seen on chunks: the
    slots of the key become the value. *)
Definition fill_key (key value : str) (ch : chunk) : chunk :=
  match ch with
  | Text w => Text w
  | Slot n => if decide (key = n) then Text value else Slot n
  end.

(** * Facts *)

(** ** Regular expression matching *)

Lemma runs_spec cls s a r :
  In (a, r) (runs cls s) <-> s = a ++ r /\ forallb cls a = true.
Proof.
  revert a r. induction s as [|c s IH]; intros a r; simpl.
  - split.
    + intros [[= <- <-]|[]]. auto.
    + intros [H _]. symmetry in H. apply app_eq_nil in H as [-> ->]. auto.
  - destruct (cls c) eqn:Hc.
    + rewrite in_app_iff, in_map_iff. simpl. split.
      * intros [[[a' r'] [[= <- <-] Hin]]|[[= <- <-]|[]]].
        -- apply IH in Hin as [-> Ha]. simpl. rewrite Hc. auto.
        -- auto.
      * intros [Hs Ha]. destruct a as [|c' a'].
        -- right. left. simpl in Hs. congruence.
        -- left. simpl in Hs. injection Hs as -> ->. simpl in Ha.
           apply andb_true_iff in Ha as [_ Ha].
           exists (a', r). split; [reflexivity|]. apply IH. auto.
    + split.
      * intros [[= <- <-]|[]]. auto.
      * intros [Hs Ha]. destruct a as [|c' a'].
        -- left. simpl in Hs. congruence.
        -- simpl in Hs. injection Hs as -> ->. simpl in Ha.
           rewrite Hc in Ha. discriminate.
Qed.

Lemma match_all_spec p s segs rest :
  In (segs, rest) (match_all p s) <-> s = concat segs ++ rest /\ fits p segs rest.
Proof.
  revert s segs. induction p as [|n p IH]; intros s segs.
  - simpl. split.
    + intros [[= <- <-]|[]]. auto.
    + intros [-> H]. destruct segs; [|destruct H]. auto.
  - destruct n as [c|n cls|].
    + simpl. destruct s as [|c' s].
      * split; [intros []|]. intros [Hs H]. destruct segs as [|seg segs]; [destruct H|].
        destruct H as [-> _]. discriminate.
      * destruct (Ascii.eqb_spec c c') as [<-|Hne].
        -- rewrite in_map_iff. split.
           ++ intros [[segs' rest'] [[= <- <-] Hin]]. apply IH in Hin as [-> Hf].
              simpl. auto.
           ++ intros [Hs H]. destruct segs as [|seg segs]; [destruct H|].
              destruct H as [-> Hf]. simpl in Hs. injection Hs as ->.
              exists (segs, rest). split; [reflexivity|]. apply IH. auto.
        -- split; [intros []|]. intros [Hs H].
           destruct segs as [|seg segs]; [destruct H|].
           destruct H as [-> _]. simpl in Hs. congruence.
    + simpl. rewrite in_flat_map. split.
      * intros [[seg r] [Hrun Hin]]. apply runs_spec in Hrun as [-> Hcls].
        destruct (Nat.leb_spec n (length seg)) as [Hn|Hn]; [|destruct Hin].
        apply in_map_iff in Hin as [[segs' rest'] [[= <- <-] Hin]].
        apply IH in Hin as [-> Hf]. simpl. rewrite <- app_assoc. auto.
      * intros [Hs H]. destruct segs as [|seg segs]; [destruct H|].
        destruct H as (Hn & Hcls & Hf). simpl in Hs. rewrite <- app_assoc in Hs.
        exists (seg, concat segs ++ rest). split.
        -- apply runs_spec. auto.
        -- apply Nat.leb_le in Hn. rewrite Hn. apply in_map_iff.
           exists (segs, rest). split; [reflexivity|]. apply IH. auto.
    + simpl. destruct (at_dollar s) eqn:Hd.
      * rewrite in_map_iff. split.
        -- intros [[segs' rest'] [[= <- <-] Hin]]. apply IH in Hin as [-> Hf].
           simpl. auto.
        -- intros [Hs H]. destruct segs as [|seg segs]; [destruct H|].
           destruct H as (-> & _ & Hf). simpl in Hs.
           exists (segs, rest). split; [reflexivity|]. apply IH. auto.
      * split; [intros []|]. intros [Hs H].
        destruct segs as [|seg segs]; [destruct H|].
        destruct H as (-> & Hd' & _). simpl in Hs. congruence.
Qed.

(** [re.match] finds a match exactly when there is one, and the match it
    returns is one. *)
Lemma re_match_Some p s segs rest :
  re_match p s = Some (segs, rest) -> s = concat segs ++ rest /\ fits p segs rest.
Proof.
  unfold re_match. intros H. apply match_all_spec.
  destruct (match_all p s); [discriminate|]. injection H as ->. left. reflexivity.
Qed.

Lemma re_match_complete p segs rest :
  fits p segs rest -> exists m, re_match p (concat segs ++ rest) = Some m.
Proof.
  intros H. unfold re_match.
  assert (Hin : In (segs, rest) (match_all p (concat segs ++ rest)))
    by (apply match_all_spec; auto).
  destruct (match_all p (concat segs ++ rest)) as [|m l]; [destruct Hin|].
  exists m. reflexivity.
Qed.


(** ** [validate_email] *)

Lemma at_dollar_iff s : at_dollar s = true <-> s = [] \/ s = [LF].
Proof.
  destruct s as [|c [|c' s]]; simpl.
  - split; auto.
  - rewrite Ascii.eqb_eq. split; [intros ->; auto|]. intros [|[= ->]]; congruence.
  - split; [discriminate|]. intros [|]; discriminate.
Qed.

Lemma length_ge_1 {A} (l : list A) : 1 <= length l <-> l <> [].
Proof. destruct l; simpl; split; try congruence; try lia. Qed.

(** The strings [validate_email] accepts: those of the shape
    [local@domain.tld], and those of that shape followed by one line feed. *)
Lemma validate_email_iff s :
  validate_email s = true <->
  email_shape s \/ exists s', s = s' ++ [LF] /\ email_shape s'.
Proof.
  unfold validate_email. split.
  - destruct (re_match email_pattern s) as [[segs rest]|] eqn:Hm; [intros _|discriminate].
    apply re_match_Some in Hm as [-> Hf].
    destruct segs as [|loc [|s2 [|dom [|s4 [|tld [|s6 [|? ?]]]]]]]; simpl in Hf;
      try tauto.
    destruct Hf as (Hl1 & Hl2 & -> & Hd1 & Hd2 & -> & Ht1 & Ht2 & -> & Hd & _).
    assert (Hshape : email_shape (loc ++ "@" :: dom ++ "." :: tld)).
    { exists loc, dom, tld. rewrite <- !length_ge_1. auto 10. }
    apply at_dollar_iff in Hd as [->| ->]; simpl; rewrite ?app_nil_r.
    + left. exact Hshape.
    + right. exists (loc ++ "@" :: dom ++ "." :: tld). split; [|exact Hshape].
      rewrite <- !app_assoc. simpl. rewrite <- !app_assoc. reflexivity.
  - intros H.
    assert (Hex : exists loc dom tld rest,
               s = concat [loc; ["@"]; dom; ["."]; tld; []] ++ rest /\
               fits email_pattern [loc; ["@"]; dom; ["."]; tld; []] rest).
    { destruct H as [H|[s' [-> H]]];
        destruct H as (loc & dom & tld & -> & Hl1 & Hl2 & Hd1 & Hd2 & Ht1 & Ht2);
        apply length_ge_1 in Hl1, Hd1.
      - exists loc, dom, tld, []. simpl. rewrite ?app_nil_r. auto 12.
      - exists loc, dom, tld, [LF]. simpl. rewrite ?app_nil_r.
        split; [|auto 12]. rewrite <- !app_assoc. simpl. rewrite <- !app_assoc.
        reflexivity. }
    destruct Hex as (loc & dom & tld & rest & -> & Hf).
    apply re_match_complete in Hf as [m ->]. reflexivity.
Qed.

(** A string of the shape [local@domain.tld] ends with a letter. *)
Lemma email_shape_last s :
  email_shape s -> exists c, last s = Some c /\ Chars.alpha c = true.
Proof.
  intros (loc & dom & tld & -> & _ & _ & _ & _ & Ht1 & Ht2).
  assert (Hne : tld <> []) by (apply length_ge_1; lia).
  destruct (exists_last Hne) as (t & c & ->).
  exists c. rewrite forallb_app in Ht2. simpl in Ht2.
  apply andb_true_iff in Ht2 as [_ Hc]. apply andb_true_iff in Hc as [Hc _].
  split; [|exact Hc].
  replace (loc ++ "@" :: dom ++ "." :: t ++ [c])
    with ((loc ++ "@" :: dom ++ "." :: t) ++ [c]).
  - apply last_snoc.
  - rewrite <- !app_assoc. simpl. rewrite <- !app_assoc. reflexivity.
Qed.

(** C5.  [validate_email] accepts the string made of [a@b.com] and a line
    feed, which has a trailing character after the top-level domain and so
    is not of the shape [local@domain.tld]: the [$] of the pattern also
    matches just before a final line feed, so the match is not anchored at
    the end of the string. *)
Theorem validate_email_accepts_trailing_newline :
  validate_email (lit "a@b.com" ++ [LF]) = true /\
  ~ email_shape (lit "a@b.com" ++ [LF]) /\
  email_shape (lit "a@b.com").
Proof.
  split; [reflexivity|]. split.
  - intros H. apply email_shape_last in H as (c & Hl & Hc).
    vm_compute in Hl. injection Hl as <-. discriminate.
  - exists (lit "a"), (lit "b"), (lit "com"). repeat split; try discriminate; simpl; lia.
Qed.

(** ** Tokens *)

Lemma token_eq k : token k = "{" :: "{" :: k ++ ["}"; "}"].
Proof. reflexivity. Qed.

Lemma token_app k r : token k ++ r = "{" :: "{" :: k ++ "}" :: "}" :: r.
Proof. rewrite token_eq. simpl. rewrite <- app_assoc. reflexivity. Qed.

Lemma no_brace_cons c k :
  no_brace (c :: k) = true <-> (c <> "{" /\ c <> "}") /\ no_brace k = true.
Proof.
  unfold no_brace. simpl. unfold not_brace.
  rewrite !andb_true_iff, !negb_true_iff, !Ascii.eqb_neq. tauto.
Qed.

(** The name of a token ends at the first closing brace. *)
Lemma name_unique k n r b :
  no_brace k = true -> no_brace n = true ->
  k ++ "}" :: r = n ++ "}" :: b -> k = n /\ r = b.
Proof.
  revert n. induction k as [|c k IH]; intros [|c' n] Hk Hn H; simpl in H.
  - injection H as ->. auto.
  - injection H as <- _. apply no_brace_cons in Hn. tauto.
  - injection H as -> _. apply no_brace_cons in Hk. tauto.
  - injection H as <- H. apply no_brace_cons in Hk as [_ Hk], Hn as [_ Hn].
    destruct (IH n Hk Hn H) as [-> ->]. auto.
Qed.

(** An opening brace after the start of a name lies beyond the closing
    braces. *)
Lemma brace_after_name k r a y :
  no_brace k = true ->
  k ++ "}" :: "}" :: r = a ++ "{" :: y ->
  exists a', a = k ++ "}" :: "}" :: a'.
Proof.
  revert a. induction k as [|c k IH]; intros a Hk H; simpl in H.
  - destruct a as [|c1 [|c2 a']]; simpl in H; try discriminate.
    injection H as <- <- _. exists a'. reflexivity.
  - apply no_brace_cons in Hk as [[Hc _] Hk]. destruct a as [|c1 a]; simpl in H.
    + injection H as -> _. congruence.
    + injection H as <- H. destruct (IH a Hk H) as [a' ->]. exists a'. reflexivity.
Qed.

(** Tokens of brace-free names do not overlap: a token that starts where
    another token has begun lies where that one has ended, or is that one. *)
Lemma tokens_apart k n r a b :
  no_brace k = true -> no_brace n = true ->
  token k ++ r = a ++ token n ++ b ->
  (a = [] /\ k = n /\ r = b) \/ exists a', a = token k ++ a'.
Proof.
  intros Hk Hn. rewrite !token_app. intros H.
  destruct a as [|c1 [|c2 a]]; simpl in H.
  - injection H as H. destruct (name_unique _ _ _ _ Hk Hn H) as [-> [= ->]]. auto.
  - injection H as <- H.
    destruct (brace_after_name k r [] _ Hk H) as [a' Ha]. destruct k; discriminate.
  - injection H as <- <- H.
    destruct (brace_after_name k r a _ Hk H) as [a' ->].
    right. exists a'. rewrite token_app. reflexivity.
Qed.

(** ** [extract_placeholders] *)

Lemma word_not_brace c : Chars.word c = true -> not_brace c = true.
Proof.
  intros H. unfold not_brace.
  destruct (Ascii.eqb_spec c "{") as [->|_]; [discriminate|].
  destruct (Ascii.eqb_spec c "}") as [->|_]; [discriminate|]. reflexivity.
Qed.

Lemma is_name_no_brace x : is_name x -> no_brace x = true.
Proof.
  intros [_ H]. unfold no_brace. rewrite forallb_forall in *.
  intros c Hc. apply word_not_brace. auto.
Qed.

(** What [re.match] of the placeholder pattern returns. *)
Lemma match_placeholder_Some s segs rest :
  re_match placeholder_pattern s = Some (segs, rest) ->
  is_name (nth 2 segs []) /\ concat segs = token (nth 2 segs []) /\
  s = token (nth 2 segs []) ++ rest.
Proof.
  intros H. apply re_match_Some in H as [-> Hf].
  destruct segs as [|s1 [|s2 [|x [|s4 [|s5 [|? ?]]]]]]; simpl in Hf; try tauto.
  destruct Hf as (-> & -> & Hx1 & Hx2 & -> & -> & _). simpl.
  rewrite length_ge_1 in Hx1. split; [split; assumption|].
  split; reflexivity.
Qed.

Lemma match_placeholder_complete x rest :
  is_name x -> exists m, re_match placeholder_pattern (token x ++ rest) = Some m.
Proof.
  intros [Hx1 Hx2].
  assert (Hf : fits placeholder_pattern [["{"]; ["{"]; x; ["}"]; ["}"]] rest).
  { simpl. rewrite length_ge_1. auto 10. }
  apply re_match_complete in Hf. exact Hf.
Qed.

Lemma occurs_nil_token x : ~ occurs (token x) [].
Proof.
  intros (a & b & H). rewrite token_app in H. destruct a; discriminate.
Qed.

Lemma occurs_cons old c s : occurs old s -> occurs old (c :: s).
Proof. intros (a & b & ->). exists (c :: a), b. reflexivity. Qed.

Lemma occurs_app_l old a s : occurs old s -> occurs old (a ++ s).
Proof.
  intros (a' & b & ->). exists (a ++ a'), b. rewrite <- app_assoc. reflexivity.
Qed.

(** [findall] with the placeholder pattern returns the names of the tokens
    that occur in the template. *)
Lemma findall_placeholders T x :
  In x (findall placeholder_pattern 2 T) <-> is_name x /\ occurs (token x) T.
Proof.
  remember (S (length T)) as n eqn:Hn.
  assert (Hlt : length T < n) by lia. clear Hn.
  revert T Hlt. induction n as [|n IH]; intros T Hlt; [lia|].
  destruct T as [|c T].
  - simp findall. simpl. split; [intros []|]. intros [_ H].
    destruct (occurs_nil_token _ H).
  - simp findall.
    destruct (re_match placeholder_pattern (c :: T)) as [[segs rest]|] eqn:Hm.
    + apply match_placeholder_Some in Hm as (Hy & Hseg & HT).
      set (y := nth 2 segs []) in *.
      assert (Hdrop : drop (length (concat segs) - 1) T = rest).
      { rewrite Hseg. rewrite token_app in HT. injection HT as _ ->.
        rewrite token_eq. simpl.
        replace (y ++ "}" :: "}" :: rest) with ((y ++ ["}"; "}"]) ++ rest)
          by (rewrite <- app_assoc; reflexivity).
        apply drop_app_length. }
      rewrite Hdrop.
      assert (Hrest : length rest < n).
      { apply (f_equal length) in HT. rewrite length_app, token_eq in HT.
        simpl in *. lia. }
      simpl. rewrite (IH rest Hrest). split.
      * intros [<-|[Hx Hocc]].
        -- split; [exact Hy|]. exists [], rest. exact HT.
        -- split; [exact Hx|]. rewrite HT. apply occurs_app_l. exact Hocc.
      * intros [Hx (a & b & Hocc)]. rewrite HT in Hocc.
        destruct (tokens_apart y x rest a b (is_name_no_brace _ Hy)
                    (is_name_no_brace _ Hx) Hocc) as [(_ & -> & _)|[a' ->]].
        -- left. reflexivity.
        -- right. split; [exact Hx|]. rewrite <- app_assoc in Hocc.
           apply app_inv_head in Hocc. exists a', b. exact Hocc.
    + assert (HT : length T < n) by (simpl in Hlt; lia).
      rewrite (IH T HT). split.
      * intros [Hx Hocc]. split; [exact Hx|]. apply occurs_cons. exact Hocc.
      * intros [Hx (a & b & Hocc)]. split; [exact Hx|].
        destruct a as [|c' a].
        -- change (c :: T = token x ++ b) in Hocc.
           destruct (match_placeholder_complete x b Hx) as [m Hm'].
           rewrite <- Hocc, Hm in Hm'. discriminate.
        -- injection Hocc as _ ->. exists a, b. reflexivity.
Qed.

Lemma in_extract_placeholders T x :
  In x (extract_placeholders T) <-> In x (findall placeholder_pattern 2 T).
Proof.
  unfold extract_placeholders.
  rewrite <- !list_elem_of_In, elem_of_elements, elem_of_list_to_set. reflexivity.
Qed.

(** On code points below U+0080, [\w] is [[A-Za-z0-9_]]. *)
Lemma word_ascii c : is_ascii c = true -> Chars.word c = Chars.ascii_word c.
Proof.
  destruct c as [b0 b1 b2 b3 b4 b5 b6 b7].
  destruct b0, b1, b2, b3, b4, b5, b6, b7; vm_compute; intros H;
    solve [reflexivity | discriminate H].
Qed.

Lemma is_name_ascii x :
  forallb is_ascii x = true -> (is_name x <-> is_ascii_name x).
Proof.
  intros Hx. unfold is_name, is_ascii_name.
  assert (H : forallb Chars.word x = forallb Chars.ascii_word x).
  { induction x as [|c x IH]; [reflexivity|]. simpl in *.
    apply andb_true_iff in Hx as [Hc Hx]. rewrite (word_ascii c Hc), (IH Hx).
    reflexivity. }
  rewrite H. reflexivity.
Qed.

(** C6, as the code has it.  For every template, [extract_placeholders]
    returns, without duplicates, exactly the names [x] such that the token
    made of two opening braces, [x] and two closing braces occurs in the
    template, where a name is one or more [\w] characters: letters, digits
    and the underscore, the letters and digits beyond ASCII included.  (Such
    tokens never overlap, see [tokens_apart].)  For names made of ASCII
    characters these are the names matching [[A-Za-z0-9_]+]. *)
Theorem extract_placeholders_spec T :
  NoDup (extract_placeholders T) /\
  (forall x, In x (extract_placeholders T) <-> is_name x /\ occurs (token x) T) /\
  (forall x, forallb is_ascii x = true ->
     (In x (extract_placeholders T) <-> is_ascii_name x /\ occurs (token x) T)).
Proof.
  split; [unfold extract_placeholders; apply NoDup_elements|]. split.
  - intros x. rewrite in_extract_placeholders. apply findall_placeholders.
  - intros x Hx. rewrite in_extract_placeholders, findall_placeholders.
    rewrite (is_name_ascii x Hx). reflexivity.
Qed.

Lemma extract_placeholders_spec_witness :
  In (lit "name") (extract_placeholders (lit "Hi {{name}}, dear {{name}}")).
Proof.
  apply (proj2 (proj2 (extract_placeholders_spec (lit "Hi {{name}}, dear {{name}}")))
               (lit "name") eq_refl).
  split.
  - split; [discriminate|reflexivity].
  - exists (lit "Hi "), (lit ", dear {{name}}"). reflexivity.
Defined.

(** C6, as stated, fails: the name extracted from the template made of two
    opening braces, [caf], the letter U+00E9 and two closing braces is not in
    [[A-Za-z0-9_]+]. *)
Lemma extract_placeholders_non_ascii_name :
  In (lit "caf" ++ ["233"]) (extract_placeholders (lit "{{caf" ++ ["233"] ++ lit "}}")) /\
  ~ is_ascii_name (lit "caf" ++ ["233"]).
Proof.
  split.
  - vm_compute. left. reflexivity.
  - intros [_ H]. vm_compute in H. discriminate.
Qed.

(** ** [str.replace] *)

Lemma starts_with_iff old s : starts_with old s = true <-> exists r, s = old ++ r.
Proof.
  revert s. induction old as [|o old IH]; intros s; simpl.
  - split; [|reflexivity]. intros _. exists s. reflexivity.
  - destruct s as [|c s].
    + split; [discriminate|]. intros [r H]. discriminate.
    + rewrite andb_true_iff, Ascii.eqb_eq, IH. split.
      * intros [-> [r ->]]. exists r. reflexivity.
      * intros [r [= -> ->]]. split; [reflexivity|]. exists r. reflexivity.
Qed.

Lemma starts_with_app old r : starts_with old (old ++ r) = true.
Proof. apply starts_with_iff. exists r. reflexivity. Qed.

Lemma contains_iff old s : contains old s = true <-> occurs old s.
Proof.
  induction s as [|c s IH]; simpl.
  - rewrite orb_false_r, starts_with_iff. split.
    + intros [r H]. exists [], r. exact H.
    + intros (a & b & H). destruct a; [|discriminate]. exists b. exact H.
  - rewrite orb_true_iff, starts_with_iff, IH. split.
    + intros [[r H]|H].
      * exists [], r. exact H.
      * apply occurs_cons. exact H.
    + intros (a & b & H). destruct a as [|c' a].
      * left. exists b. exact H.
      * right. injection H as _ ->. exists a, b. reflexivity.
Qed.

Lemma replace_scan_match o old new r :
  replace_scan (o :: old) new ((o :: old) ++ r) = new ++ replace_scan (o :: old) new r.
Proof.
  change ((o :: old) ++ r) with (o :: (old ++ r)). simp replace_scan.
  change (o :: (old ++ r)) with ((o :: old) ++ r). rewrite starts_with_app.
  simpl. rewrite Nat.sub_0_r, drop_app_length. reflexivity.
Qed.

Lemma replace_scan_skip old new c s :
  starts_with old (c :: s) = false ->
  replace_scan old new (c :: s) = c :: replace_scan old new s.
Proof. intros H. simp replace_scan. rewrite H. reflexivity. Qed.

(** Replacing a string that does not occur changes nothing. *)
Lemma str_replace_absent s old new :
  contains old s = false -> str_replace s old new = s.
Proof.
  destruct old as [|o old].
  - destruct s; discriminate.
  - unfold str_replace. induction s as [|c s IH]; intros H.
    + simp replace_scan. reflexivity.
    + simpl in H. apply orb_false_iff in H as [H1 H2].
      rewrite replace_scan_skip by exact H1. rewrite (IH H2). reflexivity.
Qed.

Lemma str_replace_token s k new :
  str_replace s (token k) new = replace_scan (token k) new s.
Proof. reflexivity. Qed.

(** ** Replacing tokens *)

Lemma starts_with_token_brace k c s :
  starts_with (token k) (c :: s) = true -> c = "{".
Proof.
  intros H. apply starts_with_iff in H as [r H]. rewrite token_app in H.
  injection H as -> _. reflexivity.
Qed.

Lemma replace_scan_token_match k new r :
  replace_scan (token k) new (token k ++ r) = new ++ replace_scan (token k) new r.
Proof. exact (replace_scan_match "{" ("{" :: k ++ ["}"; "}"]) new r). Qed.

(** The scan copies a text without an opening brace. *)
Lemma replace_scan_no_open k new w s :
  forallb (fun c => negb (Ascii.eqb c "{")) w = true ->
  replace_scan (token k) new (w ++ s) = w ++ replace_scan (token k) new s.
Proof.
  induction w as [|c w IH]; intros H; [reflexivity|]. simpl in H.
  apply andb_true_iff in H as [Hc Hw]. simpl.
  rewrite replace_scan_skip.
  - rewrite (IH Hw). reflexivity.
  - destruct (starts_with (token k) (c :: w ++ s)) eqn:Hs; [|reflexivity].
    apply starts_with_token_brace in Hs. subst c. discriminate.
Qed.

Lemma no_brace_no_open n :
  no_brace n = true ->
  forallb (fun c => negb (Ascii.eqb c "{")) (n ++ ["}"; "}"]) = true.
Proof.
  intros H. rewrite forallb_app. apply andb_true_iff. split; [|reflexivity].
  unfold no_brace in H. rewrite forallb_forall in *. intros c Hc.
  specialize (H c Hc). unfold not_brace in H. apply andb_true_iff in H as [H _].
  exact H.
Qed.

(** The scan for the token of [k] copies the token of another name. *)
Lemma replace_scan_other_token k n new b :
  no_brace k = true -> no_brace n = true -> k <> n ->
  replace_scan (token k) new (token n ++ b) = token n ++ replace_scan (token k) new b.
Proof.
  intros Hk Hn Hne.
  assert (H1 : starts_with (token k) (token n ++ b) = false).
  { destruct (starts_with (token k) (token n ++ b)) eqn:Hs; [|reflexivity].
    apply starts_with_iff in Hs as [r Hs]. symmetry in Hs.
    destruct (tokens_apart k n r [] b Hk Hn Hs) as [(_ & -> & _)|[a' Ha]];
      [congruence|discriminate]. }
  assert (H2 : starts_with (token k) ("{" :: n ++ "}" :: "}" :: b) = false).
  { destruct (starts_with (token k) ("{" :: n ++ "}" :: "}" :: b)) eqn:Hs; [|reflexivity].
    apply starts_with_iff in Hs as [r Hs]. rewrite token_app in Hs.
    injection Hs as Hs. destruct n as [|c n]; [discriminate|]. injection Hs as -> _.
    apply no_brace_cons in Hn. tauto. }
  rewrite token_app in *. rewrite replace_scan_skip by exact H1.
  rewrite replace_scan_skip by exact H2.
  replace (n ++ "}" :: "}" :: b) with ((n ++ ["}"; "}"]) ++ b)
    by (rewrite <- app_assoc; reflexivity).
  rewrite replace_scan_no_open by (apply no_brace_no_open; exact Hn).
  reflexivity.
Qed.

(** Replacing the token of [k] in a text around a token: the token is
    replaced if it is the token of [k] and copied otherwise, and the texts
    before and after it are processed separately. *)
Lemma replace_scan_around_token k n new a b :
  no_brace k = true -> no_brace n = true ->
  replace_scan (token k) new (a ++ token n ++ b) =
  replace_scan (token k) new a
  ++ (if decide (k = n) then new else token n)
  ++ replace_scan (token k) new b.
Proof.
  intros Hk Hn.
  remember (S (length a)) as m eqn:Hm.
  assert (Hlt : length a < m) by lia. clear Hm.
  revert a Hlt. induction m as [|m IH]; intros a Hlt; [lia|].
  destruct a as [|c a].
  - simp replace_scan. change ([] ++ token n ++ b) with (token n ++ b).
    change (@nil ascii ++ ?x) with x.
    destruct (decide (k = n)) as [->|Hne].
    + apply replace_scan_token_match.
    + apply replace_scan_other_token; assumption.
  - destruct (starts_with (token k) ((c :: a) ++ token n ++ b)) eqn:Hs.
    + apply starts_with_iff in Hs as [r Hs]. symmetry in Hs.
      destruct (tokens_apart k n r (c :: a) b Hk Hn Hs) as [(? & _)|[a' Ha]];
        [discriminate|].
      rewrite Ha. rewrite <- app_assoc.
      rewrite !replace_scan_token_match. rewrite <- app_assoc. f_equal.
      apply IH. apply (f_equal length) in Ha. rewrite length_app in Ha.
      simpl in *. lia.
    + change ((c :: a) ++ token n ++ b) with (c :: a ++ token n ++ b) in *.
      rewrite replace_scan_skip by exact Hs.
      rewrite replace_scan_skip.
      * rewrite <- app_comm_cons. f_equal. apply IH. simpl in Hlt. lia.
      * destruct (starts_with (token k) (c :: a)) eqn:Hs'; [|reflexivity].
        apply starts_with_iff in Hs' as [r Hr].
        assert (Ht : starts_with (token k) (c :: a ++ token n ++ b) = true).
        { apply starts_with_iff. exists (r ++ token n ++ b).
          change (c :: a ++ token n ++ b) with ((c :: a) ++ token n ++ b).
          rewrite Hr, <- app_assoc. reflexivity. }
        rewrite Ht in Hs. discriminate.
Qed.

(** ** [replace_placeholders] *)

Lemma replace_placeholders_app T R1 R2 :
  replace_placeholders T (R1 ++ R2) = replace_placeholders (replace_placeholders T R1) R2.
Proof. apply fold_left_app. Qed.

Lemma replace_placeholders_cons T k v R :
  replace_placeholders T ((k, v) :: R) =
  replace_placeholders (str_replace T (token k) (py_str v)) R.
Proof. reflexivity. Qed.

Lemma dict_has_cons k v R n :
  dict_has ((k, v) :: R) n = false <-> k <> n /\ dict_has R n = false.
Proof.
  unfold dict_has. simpl. destruct (decide (k = n)) as [->|Hne].
  - split; [discriminate|]. intros [H _]. congruence.
  - tauto.
Qed.

(** A text without a token of a key is left as it is. *)
Lemma replace_placeholders_unchanged R s :
  no_token_of R s = true -> replace_placeholders s R = s.
Proof.
  unfold no_token_of. induction R as [|[k v] R IH]; intros H; [reflexivity|].
  simpl in H. apply andb_true_iff in H as [Hk HR]. apply negb_true_iff in Hk.
  rewrite replace_placeholders_cons, (str_replace_absent _ _ _ Hk). apply IH, HR.
Qed.

(** The token of a name that is not a key stays where it is, and the texts
    before and after it are rendered separately. *)
Lemma replace_placeholders_around R n a b :
  forallb no_brace (dict_keys R) = true -> no_brace n = true -> dict_has R n = false ->
  replace_placeholders (a ++ token n ++ b) R =
  replace_placeholders a R ++ token n ++ replace_placeholders b R.
Proof.
  intros HR Hn. revert a b. induction R as [|[k v] R IH]; intros a b Hhas;
    [reflexivity|].
  simpl in HR. apply andb_true_iff in HR as [Hk HR].
  apply dict_has_cons in Hhas as [Hne Hhas].
  rewrite !replace_placeholders_cons, !str_replace_token.
  rewrite (replace_scan_around_token k n _ a b Hk Hn).
  destruct (decide (k = n)); [congruence|]. apply (IH HR), Hhas.
Qed.

(** C4, as the code has it.  [replace_placeholders] processes the keys of
    the row one after the other, in the order of the row, each on the text
    the keys before it have produced.  At the turn of a key (without braces)
    every occurrence of its token in that text is replaced by the stringified
    value, the text before and after an occurrence being processed
    separately.  A key whose token does not occur in the text at its turn is
    unused, and a template without a token of any key is returned as it is.
    The token of a name that is not a key of the row is left where it is, as
    literal text (names and keys without braces); nothing raises.  The
    template [Hi {{name}}, your code is {{code}}] with the row of name [Ana]
    and email [ana@x.com] renders to [Hi Ana, your code is {{code}}]. *)
Theorem replace_placeholders_sequential :
  (forall T R1 k v R2,
     replace_placeholders T (R1 ++ (k, v) :: R2) =
     replace_placeholders
       (str_replace (replace_placeholders T R1) (token k) (py_str v)) R2) /\
  (forall k v a b,
     no_brace k = true ->
     str_replace (a ++ token k ++ b) (token k) (py_str v) =
     str_replace a (token k) (py_str v) ++ py_str v
     ++ str_replace b (token k) (py_str v)) /\
  (forall T R1 k v R2,
     contains (token k) (replace_placeholders T R1) = false ->
     replace_placeholders T (R1 ++ (k, v) :: R2) = replace_placeholders T (R1 ++ R2)) /\
  (forall T R, no_token_of R T = true -> replace_placeholders T R = T) /\
  (forall R n a b,
     forallb no_brace (dict_keys R) = true -> no_brace n = true ->
     dict_has R n = false ->
     replace_placeholders (a ++ token n ++ b) R =
     replace_placeholders a R ++ token n ++ replace_placeholders b R) /\
  replace_placeholders (lit "Hi {{name}}, your code is {{code}}")
    [(lit "name", CStr (lit "Ana")); (lit "email", CStr (lit "ana@x.com"))] =
  lit "Hi Ana, your code is {{code}}".
Proof.
  split; [|split; [|split; [|split; [|split]]]].
  - intros T R1 k v R2. rewrite replace_placeholders_app. reflexivity.
  - intros k v a b Hk. rewrite !str_replace_token.
    rewrite (replace_scan_around_token k k _ a b Hk Hk).
    destruct (decide (k = k)); [reflexivity|congruence].
  - intros T R1 k v R2 H. rewrite !replace_placeholders_app.
    rewrite replace_placeholders_cons, (str_replace_absent _ _ _ H). reflexivity.
  - intros T R. apply replace_placeholders_unchanged.
  - intros R n a b. apply replace_placeholders_around.
  - reflexivity.
Qed.

Lemma replace_placeholders_sequential_witness :
  let R := [(lit "name", CStr (lit "Ana")); (lit "email", CStr (lit "ana@x.com"))] in
  replace_placeholders (lit "Hi {{name}}, your code is " ++ token (lit "code") ++ lit "!") R =
  replace_placeholders (lit "Hi {{name}}, your code is ") R ++ token (lit "code")
  ++ replace_placeholders (lit "!") R.
Proof.
  intros R.
  apply (proj1 (proj2 (proj2 (proj2 (proj2 replace_placeholders_sequential))))
           R (lit "code") (lit "Hi {{name}}, your code is ") (lit "!")); reflexivity.
Defined.

(** C4, as stated, fails: the key [code] does not occur in the template
    made of the token of [name], yet it is used: the value of [name]
    brings its token in, and the output is the value of [code], not the
    stringified value of [name]. *)
Lemma replace_placeholders_absent_key_used :
  let T := lit "{{name}}" in
  let R := [(lit "name", CStr (lit "{{code}}")); (lit "code", CStr (lit "42"))] in
  contains (token (lit "code")) T = false /\
  replace_placeholders T R = lit "42" /\
  replace_placeholders T (dict_without (lit "code") R) = lit "{{code}}".
Proof. vm_compute. auto. Qed.

(** C7.  When the rendered text contains no token of a key of the row,
    rendering it again with the same row changes nothing. *)
Theorem replace_placeholders_idempotent T R :
  no_token_of R (replace_placeholders T R) = true ->
  replace_placeholders (replace_placeholders T R) R = replace_placeholders T R.
Proof. apply replace_placeholders_unchanged. Qed.

Lemma replace_placeholders_idempotent_witness :
  let T := lit "Hi {{name}}, your code is {{code}}" in
  let R := [(lit "name", CStr (lit "Ana")); (lit "email", CStr (lit "ana@x.com"))] in
  replace_placeholders (replace_placeholders T R) R = replace_placeholders T R.
Proof.
  intros T R. apply (replace_placeholders_idempotent T R). reflexivity.
Defined.

(** C9.  Substitution is sequential: there are a template and a row with
    two keys such that the token of the second key does not occur in the
    template, is brought into the text by the value of the first key, and is
    then substituted, so that the output depends on the second key. *)
Theorem replace_placeholders_not_simultaneous :
  exists T k1 v1 k2 v2,
    contains (token k2) T = false /\
    contains (token k2) (replace_placeholders T [(k1, v1)]) = true /\
    replace_placeholders T [(k1, v1); (k2, v2)] =
      str_replace (py_str v1) (token k2) (py_str v2) /\
    replace_placeholders T [(k1, v1); (k2, v2)] <>
      replace_placeholders T (dict_without k2 [(k1, v1); (k2, v2)]).
Proof.
  exists (lit "{{a}}"), (lit "a"), (CStr (lit "{{b}}")), (lit "b"), (CStr (lit "X")).
  vm_compute. repeat split. discriminate.
Qed.

(** ** [validate_csv_columns] *)

Lemma existsb_blank series :
  existsb isnull series || existsb is_empty_str series = has_blank series.
Proof.
  unfold has_blank, blank. induction series as [|c l IH]; [reflexivity|].
  simpl. rewrite <- IH. destruct (isnull c), (is_empty_str c), (existsb isnull l);
    reflexivity.
Qed.

Lemma df_getitem_present df col :
  In col (columns df) -> df_getitem df col = Ret (column df col).
Proof.
  intros H. unfold df_getitem. apply list_elem_of_In in H.
  destruct (decide (col ∈ columns df)); [reflexivity|contradiction].
Qed.

(** The missing required columns. *)
Lemma missing_columns_spec df col :
  In col (filter (fun col => col ∉ columns df) required_columns) <->
  In col required_columns /\ ~ In col (columns df).
Proof.
  rewrite <- !list_elem_of_In, list_elem_of_filter. tauto.
Qed.

Lemma missing_columns_nil df :
  filter (fun col => col ∉ columns df) required_columns = [] <->
  In (lit "name") (columns df) /\ In (lit "email") (columns df).
Proof.
  rewrite <- !list_elem_of_In. unfold required_columns.
  rewrite !filter_cons, filter_nil.
  destruct (decide (lit "name" ∉ columns df)) as [H1|H1];
    destruct (decide (lit "email" ∉ columns df)) as [H2|H2];
    (split; [try discriminate|try tauto]).
  intros _. split; apply dec_stable; assumption.
Qed.

Lemma first_empty_column_required df :
  In (lit "name") (columns df) -> In (lit "email") (columns df) ->
  first_empty_column df required_columns =
  Ret (if has_blank (column df (lit "name")) then Some (lit "name")
       else if has_blank (column df (lit "email")) then Some (lit "email")
       else None).
Proof.
  intros H1 H2. unfold required_columns. cbn [first_empty_column].
  rewrite (df_getitem_present _ _ H1), (df_getitem_present _ _ H2).
  cbn [rbind]. rewrite !existsb_blank.
  destruct (has_blank (column df (lit "name"))); [reflexivity|].
  destruct (has_blank (column df (lit "email"))); reflexivity.
Qed.

(** The loop of lines 38-41 on a column of strings reports the offending
    rows, all of them, in row order. *)
Lemma invalid_emails_text idx emails :
  forallb is_text emails = true ->
  invalid_emails idx emails = Ret (map report_line (offending (idx + 1) emails)).
Proof.
  revert idx. induction emails as [|e emails IH]; intros idx H; [reflexivity|].
  simpl in H. apply andb_true_iff in H as [He H].
  destruct e as [s| |]; try discriminate. simpl.
  rewrite (IH (S idx) H). simpl. unfold offending. simpl.
  replace (S (idx + 1)) with (S idx + 1) by lia.
  destruct (validate_email s); reflexivity.
Qed.

Lemma validate_csv_columns_present df :
  In (lit "name") (columns df) -> In (lit "email") (columns df) ->
  has_blank (column df (lit "name")) = false ->
  has_blank (column df (lit "email")) = false ->
  forallb is_text (column df (lit "email")) = true ->
  validate_csv_columns df =
  Ret (match offending 1 (column df (lit "email")) with
       | [] => (true, lit "CSV validation successful")
       | _ :: _ =>
           (false, lit "Invalid email addresses found:" ++ [LF]
                   ++ join [LF] (map report_line
                                   (take 5 (offending 1 (column df (lit "email"))))))
       end).
Proof.
  intros H1 H2 Hn He Ht. unfold validate_csv_columns.
  rewrite (proj2 (missing_columns_nil df)) by auto.
  rewrite (first_empty_column_required _ H1 H2), Hn, He. cbn [rbind].
  rewrite (df_getitem_present _ _ H2). cbn [rbind].
  rewrite (invalid_emails_text 0 _ Ht). cbn [rbind Nat.add].
  destruct (offending 1 (column df (lit "email"))) as [|p l]; [reflexivity|].
  change (report_line p :: map report_line l) with (map report_line (p :: l)).
  rewrite firstn_map. reflexivity.
Qed.

(** The offending rows: row number [i] (counted from [first]) is reported
    with the e-mail [e] when the cell at that position reads [e] and [e]
    fails the format check. *)
Lemma offending_spec first emails i e :
  In (i, e) (offending first emails) <->
  first <= i /\ map py_str emails !! (i - first) = Some e /\ validate_email e = false.
Proof.
  unfold offending. rewrite filter_In. simpl. rewrite negb_true_iff.
  assert (H : In (i, e) (zip (seq first (length emails)) (map py_str emails)) <->
              first <= i /\ map py_str emails !! (i - first) = Some e).
  { revert first. induction emails as [|c emails IH]; intros first; simpl.
    - split; [intros []|]. intros [_ H]. discriminate.
    - rewrite IH. split.
      + intros [[= <- <-]|(Hle & Hl)].
        * rewrite Nat.sub_diag. auto.
        * split; [lia|]. replace (i - first) with (S (i - S first)) by lia. exact Hl.
      + intros [Hle Hl]. destruct (decide (i = first)) as [->|Hne].
        * rewrite Nat.sub_diag in Hl. injection Hl as <-. auto.
        * right. split; [lia|].
          replace (i - first) with (S (i - S first)) in Hl by lia. exact Hl. }
  rewrite H. tauto.
Qed.

Lemma validate_email_nonempty s : validate_email s = true -> s <> [].
Proof. intros H ->. discriminate. Qed.

Lemma passes_format_column emails :
  forallb passes_format emails = true ->
  has_blank emails = false /\ forallb is_text emails = true /\
  forall first, offending first emails = [].
Proof.
  induction emails as [|c emails IH]; intros H; [auto|].
  simpl in H. apply andb_true_iff in H as [Hc H].
  destruct (IH H) as (Hb & Ht & Ho). destruct c as [s| |]; try discriminate.
  simpl in Hc. split; [|split].
  - unfold has_blank in *. simpl. rewrite Hb.
    destruct s; [discriminate|reflexivity].
  - simpl. exact Ht.
  - intros first. unfold offending in *. simpl. rewrite Hc. simpl. apply Ho.
Qed.

(** C3, as the code has it.  [validate_csv_columns] checks in a fixed
    order and stops at the first failing category.  For every table: if the
    [name] or the [email] column is absent it fails with the message naming
    the missing columns; otherwise, if a row has a missing or empty [name]
    or [email], it fails with the message of a column that has such a value;
    otherwise, for a table whose e-mail cells are strings, if an e-mail
    fails the format check, it fails with the message listing the first five
    offending rows, as row number (from 1) and e-mail, all offending rows
    having been collected in row order, and else the table is accepted.  The
    table with the e-mails [a@b.com] and [not-an-email] fails citing
    row 2. *)
Theorem validate_csv_columns_order :
  (forall df,
     (~ (In (lit "name") (columns df) /\ In (lit "email") (columns df)) ->
      exists missing,
        missing <> [] /\
        (forall col, In col missing <->
                     (col = lit "name" \/ col = lit "email") /\ ~ In col (columns df)) /\
        validate_csv_columns df =
        Ret (false, lit "Missing required columns: " ++ join (lit ", ") missing)) /\
     (In (lit "name") (columns df) -> In (lit "email") (columns df) ->
      (has_blank (column df (lit "name")) || has_blank (column df (lit "email")) = true ->
       exists col,
         (col = lit "name" \/ col = lit "email") /\
         has_blank (column df col) = true /\
         validate_csv_columns df =
         Ret (false, lit "Column '" ++ col ++ lit "' contains empty values")) /\
      (has_blank (column df (lit "name")) = false ->
       has_blank (column df (lit "email")) = false ->
       forallb is_text (column df (lit "email")) = true ->
       let bad := offending 1 (column df (lit "email")) in
       (forall i e, In (i, e) bad <->
                    1 <= i /\ column df (lit "email") !! (i - 1) = Some (CStr e) /\
                    validate_email e = false) /\
       (bad <> [] ->
        length (take 5 bad) <= 5 /\
        validate_csv_columns df =
        Ret (false, lit "Invalid email addresses found:" ++ [LF]
                    ++ join [LF] (map report_line (take 5 bad)))) /\
       (bad = [] ->
        validate_csv_columns df = Ret (true, lit "CSV validation successful"))))) /\
  validate_csv_columns
    {| columns := [lit "name"; lit "email"];
       rows := [[CStr (lit "Ana"); CStr (lit "a@b.com")];
                [CStr (lit "Bo"); CStr (lit "not-an-email")]] |} =
  Ret (false, lit "Invalid email addresses found:" ++ [LF] ++ lit "Row 2: not-an-email").
Proof.
  split; [|reflexivity]. intros df. split.
  - intros Habs. exists (filter (fun col => col ∉ columns df) required_columns).
    assert (Hne : filter (fun col => col ∉ columns df) required_columns <> []).
    { intros H. apply missing_columns_nil in H. contradiction. }
    split; [exact Hne|]. split.
    + intros col. rewrite missing_columns_spec. unfold required_columns. simpl.
      split; intros [H1 H2]; (split; [|exact H2]); intuition congruence.
    + unfold validate_csv_columns.
      destruct (filter (fun col => col ∉ columns df) required_columns);
        [congruence|reflexivity].
  - intros H1 H2. split.
    + intros Hb. unfold validate_csv_columns.
      rewrite (proj2 (missing_columns_nil df)) by auto.
      rewrite (first_empty_column_required _ H1 H2). cbn [rbind].
      destruct (has_blank (column df (lit "name"))) eqn:Hn.
      * exists (lit "name"). auto.
      * cbn [orb] in Hb. rewrite Hb. exists (lit "email"). auto.
    + intros Hn He Ht bad. split; [|split].
      * intros i e. unfold bad. rewrite offending_spec, list_lookup_fmap.
        split; intros (Hi & Hl & Hv); (split; [exact Hi|]; split; [|exact Hv]).
        -- destruct (column df (lit "email") !! (i - 1)) as [c|] eqn:Hc;
             [|discriminate].
           rewrite forallb_forall in Ht.
           assert (Hin : In c (column df (lit "email")))
             by (apply list_elem_of_In, list_elem_of_lookup; eauto).
           specialize (Ht c Hin). destruct c; try discriminate.
           injection Hl as <-. reflexivity.
        -- rewrite Hl. reflexivity.
      * intros Hbad. split; [rewrite length_take; lia|].
        rewrite (validate_csv_columns_present df H1 H2 Hn He Ht). fold bad.
        destruct bad; [congruence|reflexivity].
      * intros Hbad. rewrite (validate_csv_columns_present df H1 H2 Hn He Ht).
        fold bad. rewrite Hbad. reflexivity.
Qed.

Lemma validate_csv_columns_order_witness :
  let df := {| columns := [lit "name"; lit "email"];
               rows := [[CStr (lit "Ana"); CStr (lit "a@b.com")];
                        [CStr (lit "Bo"); CStr (lit "b@c")];
                        [CStr (lit "Cy"); CStr (lit "c@d.org")]] |} in
  validate_csv_columns df =
  Ret (false, lit "Invalid email addresses found:" ++ [LF] ++ lit "Row 2: b@c").
Proof.
  intros df.
  destruct (proj1 validate_csv_columns_order df) as [_ H].
  destruct (H ltac:(simpl; auto) ltac:(simpl; auto)) as [_ H'].
  destruct (H' eq_refl eq_refl eq_refl) as (_ & Hbad & _).
  destruct (Hbad ltac:(discriminate)) as [_ ->]. reflexivity.
Defined.

(** C3, as stated, fails: it speaks of every table.  On a table with both
    columns and no missing or empty value whose e-mail column holds a number
    (a column [read_csv] parsed as numbers), the e-mail does not pass the
    format check, yet [validate_csv_columns] returns no category: it
    raises. *)
Lemma validate_csv_columns_numeric_email :
  let df := {| columns := [lit "name"; lit "email"];
               rows := [[CStr (lit "Ana"); CNum (lit "12345")]] |} in
  In (lit "name") (columns df) /\ In (lit "email") (columns df) /\
  has_blank (column df (lit "name")) = false /\
  has_blank (column df (lit "email")) = false /\
  forallb passes_format (column df (lit "email")) = false /\
  (forall outcome, validate_csv_columns df <> Ret outcome).
Proof.
  intros df. split; [simpl; auto|]. split; [simpl; auto|].
  split; [reflexivity|]. split; [reflexivity|]. split; [reflexivity|].
  intros outcome H. vm_compute in H. discriminate H.
Qed.

(** C10.  The empty-value check looks at the [name] and [email] columns
    only: a table with both columns, no missing or empty [name] and every
    e-mail a string passing the format check is accepted, whatever its
    other columns hold. *)
Theorem validate_csv_columns_optional_columns df :
  In (lit "name") (columns df) -> In (lit "email") (columns df) ->
  has_blank (column df (lit "name")) = false ->
  forallb passes_format (column df (lit "email")) = true ->
  validate_csv_columns df = Ret (true, lit "CSV validation successful").
Proof.
  intros H1 H2 Hn Hp. apply passes_format_column in Hp as (He & Ht & Ho).
  rewrite (validate_csv_columns_present df H1 H2 Hn He Ht), Ho. reflexivity.
Qed.

Lemma validate_csv_columns_optional_columns_witness :
  let df := {| columns := [lit "name"; lit "code"; lit "email"];
               rows := [[CStr (lit "Ana"); CNull; CStr (lit "a@b.com")];
                        [CStr (lit "Bo"); CStr []; CStr (lit "bo@c.org")];
                        [CStr (lit "Cy"); CStr (lit "7"); CStr (lit "c@d.org")]] |} in
  has_blank (column df (lit "code")) = true /\
  validate_csv_columns df = Ret (true, lit "CSV validation successful").
Proof.
  intros df. split; [reflexivity|].
  apply (validate_csv_columns_optional_columns df); simpl; auto.
Defined.

(** ** The send branch *)

Section SendBranch.

Variable env : Env.
Variables (template_content : str) (is_html : bool).
Variables (sender_email sender_password email_subject : str).

(** Processing a row of a table that has the [name] and [email] columns
    never raises: it records one outcome, whatever fails. *)
Lemma send_row_run idx row st :
  dict_has row (lit "email") = true -> dict_has row (lit "name") = true ->
  send_row env template_content is_html sender_email email_subject idx row st =
  (Ret tt,
   {| email_results :=
        email_results st
        ++ [row_outcome env template_content is_html sender_email email_subject (idx, row)];
      trace :=
        trace st
        ++ row_events env template_content is_html sender_email email_subject (idx, row) |}).
Proof.
  unfold dict_has. intros He Hn.
  destruct (dict_get row (lit "email")) as [e|] eqn:Hge; [|discriminate].
  destruct (dict_get row (lit "name")) as [n|] eqn:Hgn; [|discriminate].
  unfold send_row, send_email, row_outcome, row_events, row_message, row_getitem,
    try_except, bind, call, emit, outcome, lift, ret, append_result.
  cbn [fst snd]. rewrite Hge, Hgn. cbn [default].
  destruct (ui_progress env idx) as [err|]; cbn.
  - rewrite app_nil_r. reflexivity.
  - destruct (ui_status env idx) as [err|]; cbn.
    + rewrite app_nil_r. reflexivity.
    + destruct (smtp_send env idx _) as [err|]; cbn; reflexivity.
Qed.

Lemma for_each_rows l st :
  Forall (fun p : nat * dict =>
            dict_has p.2 (lit "email") = true /\ dict_has p.2 (lit "name") = true) l ->
  for_each l
    (fun '(idx, row) =>
       send_row env template_content is_html sender_email email_subject idx row) st =
  (Ret tt,
   {| email_results :=
        email_results st
        ++ map (row_outcome env template_content is_html sender_email email_subject) l;
      trace :=
        trace st
        ++ flat_map (row_events env template_content is_html sender_email email_subject) l |}).
Proof.
  intros H. revert st. induction H as [|[idx row] l [He Hn] _ IH]; intros st.
  - simpl. rewrite !app_nil_r. destruct st. reflexivity.
  - cbn [for_each]. unfold bind at 1.
    rewrite (send_row_run idx row st He Hn). rewrite IH. cbn.
    rewrite <- !app_assoc. reflexivity.
Qed.

End SendBranch.

Lemma dict_has_to_dict cols row col :
  In col cols -> dict_has (to_dict cols row) col = true.
Proof.
  unfold dict_has. revert row.
  induction cols as [|c cols IH]; intros row H; [destruct H|].
  destruct H as [->|H].
  - simpl. destruct (decide (col = col)); [reflexivity|congruence].
  - simpl. destruct (decide (c = col)); [reflexivity|]. apply IH, H.
Qed.

Lemma Forall_imap {A B} (P : B -> Prop) (f : nat -> A -> B) l :
  (forall i x, In x l -> P (f i x)) -> Forall P (imap f l).
Proof.
  revert f. induction l as [|x l IH]; intros f H; simpl; constructor.
  - apply H. left. reflexivity.
  - apply IH. intros i y Hy. apply H. right. exact Hy.
Qed.

(** The rows of a table with the [name] and [email] columns have both
    keys. *)
Lemma iterrows_keys df :
  In (lit "name") (columns df) -> In (lit "email") (columns df) ->
  Forall (fun p : nat * dict =>
            dict_has p.2 (lit "email") = true /\ dict_has p.2 (lit "name") = true)
         (iterrows df).
Proof.
  intros Hn He. apply Forall_imap. intros i row _. simpl.
  split; apply dict_has_to_dict; assumption.
Qed.

(** One step of the branch: an external call whose behaviour [H] gives. *)
Ltac step_call H := unfold bind at 1; unfold call at 1; rewrite H; cbn.

(** The run of the branch once the session is acquired and the loop is
    entered: one outcome per row, the sends of the rows, then the release. *)
Lemma run_connected env template_content is_html df sender_email sender_password
    email_subject previous :
  validate_email sender_email = true ->
  In (lit "name") (columns df) -> In (lit "email") (columns df) ->
  smtp_connect env = None -> smtp_starttls env = None ->
  smtp_login env sender_email sender_password = None ->
  ui_setup env = None ->
  run env template_content is_html df sender_email sender_password email_subject previous =
  {| email_results :=
       map (row_outcome env template_content is_html sender_email email_subject)
           (iterrows df);
     trace :=
       [EvConnect; EvStartTLS; EvLogin sender_email sender_password]
       ++ flat_map (row_events env template_content is_html sender_email email_subject)
                   (iterrows df)
       ++ EvQuit ::
          match smtp_quit env, ui_done env with
          | Some e, _ | None, Some e => [EvError (lit "SMTP connection error: " ++ e)]
          | None, None => []
          end |}.
Proof.
  intros Hv Hn He Hc Ht Hl Hu.
  unfold run, main_send_all. unfold bind at 1. cbn [set_results initial_state].
  rewrite Hv. cbn [negb]. unfold try_except.
  step_call Hc. step_call Ht. step_call Hl.
  unfold bind at 1. rewrite Hu. cbn [outcome].
  unfold bind at 1.
  rewrite (for_each_rows env template_content is_html sender_email email_subject
             (iterrows df) _ (iterrows_keys df Hn He)).
  cbn. destruct (smtp_quit env) as [e|]; cbn.
  - rewrite <- !app_assoc. reflexivity.
  - destruct (ui_done env) as [e|]; cbn; rewrite <- ?app_assoc; reflexivity.
Qed.

Lemma sends_of_app tr1 tr2 : sends_of (tr1 ++ tr2) = sends_of tr1 ++ sends_of tr2.
Proof. apply flat_map_app. Qed.

Lemma imap_labels {A B} (g : nat -> nat) (h : A -> B) (l : list A) :
  map fst (imap (fun i x => (g i, h x)) l) = map g (seq 0 (length l)).
Proof.
  revert g. induction l as [|x l IH]; intros g; [reflexivity|].
  cbn [imap map length seq fst]. f_equal.
  rewrite <- seq_shift, map_map. apply (IH (fun i => g (S i))).
Qed.

(** The index labels of the rows are their positions. *)
Lemma iterrows_labels df : map fst (iterrows df) = seq 0 (length (rows df)).
Proof.
  unfold iterrows.
  rewrite (imap_labels (fun i => i) (to_dict (columns df)) (rows df)).
  apply map_id.
Qed.

(** When the widgets of the rows do not raise, a send is attempted for
    every row, in row order. *)
Lemma sends_of_rows env template_content is_html sender_email email_subject l :
  (forall i, ui_progress env i = None) -> (forall i, ui_status env i = None) ->
  sends_of (flat_map (row_events env template_content is_html sender_email email_subject) l)
  = map fst l.
Proof.
  intros Hp Hs. induction l as [|p l IH]; [reflexivity|].
  cbn [flat_map map]. rewrite sends_of_app, IH.
  unfold row_events. rewrite Hp, Hs. reflexivity.
Qed.

Lemma length_iterrows df : length (iterrows df) = length (rows df).
Proof. unfold iterrows. apply length_imap. Qed.

Lemma lookup_outcomes env template_content is_html sender_email email_subject df i row :
  rows df !! i = Some row ->
  map (row_outcome env template_content is_html sender_email email_subject) (iterrows df)
    !! i =
  Some (row_outcome env template_content is_html sender_email email_subject
          (i, to_dict (columns df) row)).
Proof.
  intros H.
  change (map ?f ?l) with (f <$> l).
  rewrite list_lookup_fmap. unfold iterrows. rewrite list_lookup_imap, H. reflexivity.
Qed.

(** C1.  After a successful connection, when the transport fails on row
    [k] (with reason [reason]) and on no other row, the branch leaves one
    outcome per row of the table, in row order (the outcome at position [i]
    carries the e-mail and the name of row [i]); the outcome of row [k] has
    [success = False] and a message holding the reason, every other outcome
    has [success = True]; a send is attempted for every row, in row order:
    the failure of row [k] does not stop the rows after it. *)
Theorem send_all_one_failure env template_content is_html df sender_email
    sender_password email_subject previous k reason :
  validate_email sender_email = true ->
  In (lit "name") (columns df) -> In (lit "email") (columns df) ->
  smtp_connect env = None -> smtp_starttls env = None ->
  smtp_login env sender_email sender_password = None ->
  ui_setup env = None ->
  (forall i, ui_progress env i = None) -> (forall i, ui_status env i = None) ->
  (forall m, smtp_send env k m = Some reason) ->
  (forall i m, i <> k -> smtp_send env i m = None) ->
  let st := run env template_content is_html df sender_email sender_password
                email_subject previous in
  let results := email_results st in
  length results = length (rows df) /\
  sends_of (trace st) = seq 0 (length (rows df)) /\
  forall i row,
    rows df !! i = Some row ->
    exists o,
      results !! i = Some o /\
      recipient o = row_cell df row (lit "email") /\
      name o = row_cell df row (lit "name") /\
      (i = k -> success o = false /\ message o = lit "Failed to send email: " ++ reason) /\
      (i <> k -> success o = true).
Proof.
  intros Hv Hn He Hc Ht Hl Hu Hprog Hstat Hk Hother st results. unfold results, st.
  rewrite (run_connected env template_content is_html df sender_email sender_password
             email_subject previous Hv Hn He Hc Ht Hl Hu).
  cbn [email_results trace]. split; [rewrite length_map; apply length_iterrows|].
  split.
  { rewrite !sends_of_app, (sends_of_rows _ _ _ _ _ _ Hprog Hstat), iterrows_labels.
    destruct (smtp_quit env), (ui_done env); cbn; apply app_nil_r. }
  intros i row Hi. eexists. split; [apply lookup_outcomes, Hi|].
  unfold row_outcome, row_cell. cbn [fst snd recipient name success message].
  rewrite Hprog, Hstat. split; [reflexivity|]. split; [reflexivity|]. split.
  - intros ->. rewrite Hk. split; reflexivity.
  - intros Hne. rewrite (Hother i _ Hne). reflexivity.
Qed.

Lemma send_all_one_failure_witness :
  let env := {| smtp_connect := None; smtp_starttls := None;
                smtp_login := fun _ _ => None;
                smtp_send := fun i _ => if Nat.eqb i 1 then Some (lit "550 rejected") else None;
                smtp_quit := None; ui_setup := None; ui_progress := fun _ => None;
                ui_status := fun _ => None; ui_done := None |} in
  let df := {| columns := [lit "name"; lit "email"];
               rows := [[CStr (lit "Ana"); CStr (lit "a@b.com")];
                        [CStr (lit "Bo"); CStr (lit "bo@c.org")];
                        [CStr (lit "Cy"); CStr (lit "c@d.org")]] |} in
  length (email_results (run env (lit "Hi {{name}}") false df (lit "me@x.com") (lit "pw")
                             (lit "Hello") [])) = 3.
Proof.
  intros env df.
  refine (proj1 (send_all_one_failure env (lit "Hi {{name}}") false df (lit "me@x.com")
                   (lit "pw") (lit "Hello") [] 1 (lit "550 rejected")
                   eq_refl _ _ eq_refl eq_refl eq_refl eq_refl (fun _ => eq_refl)
                   (fun _ => eq_refl) (fun _ => eq_refl) _)).
  - simpl. auto.
  - simpl. auto.
  - intros i m Hi. simpl. destruct (Nat.eqb_spec i 1); [contradiction|reflexivity].
Defined.

(** C2.  When connecting, the TLS upgrade or the login raises, the branch
    leaves no outcome, attempts no send and reports one error, for every
    table. *)
Theorem send_all_connection_failure env template_content is_html df sender_email
    sender_password email_subject previous e :
  validate_email sender_email = true ->
  smtp_connect env = Some e \/
  (smtp_connect env = None /\ smtp_starttls env = Some e) \/
  (smtp_connect env = None /\ smtp_starttls env = None /\
   smtp_login env sender_email sender_password = Some e) ->
  let st := run env template_content is_html df sender_email sender_password
                email_subject previous in
  email_results st = [] /\
  sends_of (trace st) = [] /\
  errors_of (trace st) = [lit "SMTP connection error: " ++ e].
Proof.
  intros Hv H st. unfold st, run, main_send_all.
  unfold bind at 1. cbn [set_results initial_state]. rewrite Hv. cbn [negb].
  unfold try_except.
  destruct H as [Hc|[[Hc Ht]|(Hc & Ht & Hl)]]; step_call Hc.
  - auto.
  - step_call Ht. auto.
  - step_call Ht. step_call Hl. auto.
Qed.

Lemma send_all_connection_failure_witness :
  let env := {| smtp_connect := None; smtp_starttls := None;
                smtp_login := fun _ _ => Some (lit "535 bad credentials");
                smtp_send := fun _ _ => None;
                smtp_quit := None; ui_setup := None; ui_progress := fun _ => None;
                ui_status := fun _ => None; ui_done := None |} in
  let df := {| columns := [lit "name"; lit "email"];
               rows := [[CStr (lit "Ana"); CStr (lit "a@b.com")];
                        [CStr (lit "Bo"); CStr (lit "bo@c.org")]] |} in
  email_results (run env (lit "Hi {{name}}") false df (lit "me@x.com") (lit "pw")
                     (lit "Hello") []) = [].
Proof.
  intros env df.
  refine (proj1 (send_all_connection_failure env (lit "Hi {{name}}") false df
                   (lit "me@x.com") (lit "pw") (lit "Hello") []
                   (lit "535 bad credentials") eq_refl _)).
  right. right. simpl. auto.
Defined.

Lemma sends_of_row_events env template_content is_html sender_email email_subject l :
  Forall (fun ev => exists idx m, ev = EvSend idx m)
         (flat_map (row_events env template_content is_html sender_email email_subject) l).
Proof.
  induction l as [|p l IH]; simpl; [constructor|].
  apply Forall_app. split; [|exact IH].
  unfold row_events.
  destruct (ui_progress env p.1), (ui_status env p.1); repeat constructor. eauto.
Qed.

(** C8, as the code has it.  When the session is acquired and the calls
    between the login and the loop do not raise, the table being a validated
    one, the session is released whatever fails while the rows are
    processed: [server.quit()] is called once, after the sends of all the
    rows, each row having left its outcome, and before the branch ends (only
    error reports may follow). *)
Theorem send_all_releases_session env template_content is_html df sender_email
    sender_password email_subject previous :
  validate_email sender_email = true ->
  In (lit "name") (columns df) -> In (lit "email") (columns df) ->
  smtp_connect env = None -> smtp_starttls env = None ->
  smtp_login env sender_email sender_password = None ->
  ui_setup env = None ->
  let st := run env template_content is_html df sender_email sender_password
                email_subject previous in
  length (email_results st) = length (rows df) /\
  exists sends reports,
    trace st =
      [EvConnect; EvStartTLS; EvLogin sender_email sender_password]
      ++ sends ++ EvQuit :: reports /\
    Forall (fun ev => exists idx m, ev = EvSend idx m) sends /\
    Forall (fun ev => exists text, ev = EvError text) reports.
Proof.
  intros Hv Hn He Hc Ht Hl Hu st. unfold st.
  rewrite (run_connected env template_content is_html df sender_email sender_password
             email_subject previous Hv Hn He Hc Ht Hl Hu).
  cbn [email_results trace]. split; [rewrite length_map; apply length_iterrows|].
  eexists _, _. split; [reflexivity|]. split; [apply sends_of_row_events|].
  destruct (smtp_quit env), (ui_done env); repeat constructor; eauto.
Qed.

Lemma send_all_releases_session_witness :
  let env := {| smtp_connect := None; smtp_starttls := None;
                smtp_login := fun _ _ => None;
                smtp_send := fun _ _ => Some (lit "421 try later");
                smtp_quit := None; ui_setup := None;
                ui_progress := fun i => if Nat.eqb i 0 then Some (lit "widget") else None;
                ui_status := fun _ => None; ui_done := None |} in
  let df := {| columns := [lit "name"; lit "email"];
               rows := [[CStr (lit "Ana"); CStr (lit "a@b.com")];
                        [CStr (lit "Bo"); CStr (lit "bo@c.org")]] |} in
  length (email_results (run env (lit "Hi {{name}}") false df (lit "me@x.com") (lit "pw")
                             (lit "Hello") [])) = 2.
Proof.
  intros env df.
  refine (proj1 (send_all_releases_session env (lit "Hi {{name}}") false df
                   (lit "me@x.com") (lit "pw") (lit "Hello") []
                   eq_refl _ _ eq_refl eq_refl eq_refl eq_refl)); simpl; auto.
Defined.

(** C8, as stated, fails: the release is a call after the loop, not a
    scoped one.  With the session acquired and [st.progress(0)] raising, the
    branch ends without having called [server.quit()]. *)
Lemma send_all_release_skipped :
  let env := {| smtp_connect := None; smtp_starttls := None;
                smtp_login := fun _ _ => None;
                smtp_send := fun _ _ => None;
                smtp_quit := None; ui_setup := Some (lit "widget");
                ui_progress := fun _ => None; ui_status := fun _ => None;
                ui_done := None |} in
  let df := {| columns := [lit "name"; lit "email"];
               rows := [[CStr (lit "Ana"); CStr (lit "a@b.com")]] |} in
  let st := run env (lit "Hi {{name}}") false df (lit "me@x.com") (lit "pw")
                (lit "Hello") [] in
  validate_email (lit "me@x.com") = true /\
  In (EvLogin (lit "me@x.com") (lit "pw")) (trace st) /\
  ~ In EvQuit (trace st) /\
  errors_of (trace st) = [lit "SMTP connection error: widget"].
Proof.
  vm_compute. repeat split; auto.
  intros [H|[H|[H|[H|[]]]]]; discriminate H.
Qed.

(** * Further properties of the code *)

(** ** [validate_email] *)

(** X1.  [validate_email] accepts exactly the strings of the shape
    [local@domain.tld] (one or more characters of [[a-zA-Z0-9._%+-]], an
    [@], one or more characters of [[a-zA-Z0-9.-]], a dot, two or more
    letters) and those strings followed by one line feed. *)
Theorem validate_email_accepted_strings s :
  validate_email s = true <->
  email_shape s \/ exists s', s = s' ++ [LF] /\ email_shape s'.
Proof. split; intros H; apply validate_email_iff; exact H. Qed.

(** The characters of the three classes of the pattern are ASCII characters
    other than [@]. *)
Lemma email_class_char c :
  Chars.local_part c || Chars.domain_part c = true ->
  is_ascii c && negb (Ascii.eqb c "@") = true.
Proof.
  destruct c as [b0 b1 b2 b3 b4 b5 b6 b7].
  destruct b0, b1, b2, b3, b4, b5, b6, b7; vm_compute; intros H;
    solve [reflexivity | discriminate H].
Qed.

Lemma alpha_local_part c : Chars.alpha c = true -> Chars.local_part c = true.
Proof.
  unfold Chars.alpha, Chars.local_part. intros H.
  apply orb_true_iff in H as [-> | ->]; rewrite ?orb_true_r; reflexivity.
Qed.

Lemma email_class_run cls l :
  (forall c, cls c = true -> Chars.local_part c || Chars.domain_part c = true) ->
  forallb cls l = true ->
  List.filter (Ascii.eqb "@") l = [] /\ forallb is_ascii l = true.
Proof.
  intros Hcls. induction l as [|c l IH]; intros H; [auto|].
  simpl in H. apply andb_true_iff in H as [Hc Hl].
  destruct (IH Hl) as [IH1 IH2].
  pose proof (email_class_char c (Hcls c Hc)) as Hch.
  apply andb_true_iff in Hch as [Ha Hn]. apply negb_true_iff in Hn.
  cbn [List.filter forallb]. rewrite Ascii.eqb_sym, Hn, Ha. auto.
Qed.

Lemma email_shape_facts s :
  email_shape s ->
  List.filter (Ascii.eqb "@") s = ["@"] /\ forallb is_ascii s = true /\ 6 <= length s.
Proof.
  intros (loc & dom & tld & -> & Hl1 & Hl2 & Hd1 & Hd2 & Ht1 & Ht2).
  destruct (email_class_run Chars.local_part loc) as [Fl Al];
    [intros c ->; reflexivity|exact Hl2|].
  destruct (email_class_run Chars.domain_part dom) as [Fd Ad];
    [intros c ->; apply orb_true_r|exact Hd2|].
  destruct (email_class_run Chars.alpha tld) as [Ft At'];
    [intros c Hc; rewrite (alpha_local_part c Hc); reflexivity|exact Ht2|].
  apply length_ge_1 in Hl1, Hd1.
  rewrite List.filter_app, forallb_app, length_app. cbn [List.filter forallb length].
  rewrite List.filter_app, forallb_app, length_app. cbn [List.filter forallb length].
  rewrite Fl, Fd, Ft, Al, Ad, At'. repeat split; try reflexivity. lia.
Qed.

(** X2.  An accepted address has exactly one [@], is made of ASCII
    characters only and has at least six characters. *)
Theorem validate_email_accepted_form s :
  validate_email s = true ->
  List.filter (Ascii.eqb "@") s = ["@"] /\ forallb is_ascii s = true /\ 6 <= length s.
Proof.
  intros H. apply validate_email_iff in H as [H|(s' & -> & H)];
    apply email_shape_facts in H as (Hf & Ha & Hn).
  - auto.
  - rewrite List.filter_app, forallb_app, length_app, Hf, Ha.
    repeat split; try reflexivity. lia.
Qed.

Lemma validate_email_accepted_form_witness :
  List.filter (Ascii.eqb "@") (lit "ana@x.org") = ["@"].
Proof.
  exact (proj1 (validate_email_accepted_form (lit "ana@x.org") eq_refl)).
Defined.

(** ** [extract_placeholders] and [replace_placeholders] *)

(** X3.  [extract_placeholders] returns the empty list (and the warning of
    line 112 is shown) exactly when no token of a name occurs in the
    template. *)
Theorem extract_placeholders_empty T :
  extract_placeholders T = [] <-> forall x, is_name x -> ~ occurs (token x) T.
Proof.
  split.
  - intros H x Hx Hocc.
    assert (Hin : In x (extract_placeholders T))
      by (apply in_extract_placeholders, findall_placeholders; auto).
    rewrite H in Hin. destruct Hin.
  - intros H. destruct (extract_placeholders T) as [|x l] eqn:He; [reflexivity|].
    assert (Hin : In x (extract_placeholders T)) by (rewrite He; left; reflexivity).
    apply in_extract_placeholders, findall_placeholders in Hin as [Hx Hocc].
    destruct (H x Hx Hocc).
Qed.

(** X4.  A placeholder the row has no key for survives rendering: when the
    keys of the row have no braces, a name that [extract_placeholders] finds
    in the template and that is not a key is still found in the rendered
    text. *)
Theorem extract_placeholders_after_render T R n :
  forallb no_brace (dict_keys R) = true ->
  dict_has R n = false ->
  In n (extract_placeholders T) ->
  In n (extract_placeholders (replace_placeholders T R)).
Proof.
  intros HR Hn Hin.
  apply in_extract_placeholders, findall_placeholders in Hin as [Hname (a & b & ->)].
  apply in_extract_placeholders, findall_placeholders. split; [exact Hname|].
  rewrite (replace_placeholders_around R n a b HR (is_name_no_brace n Hname) Hn).
  exists (replace_placeholders a R), (replace_placeholders b R). reflexivity.
Qed.

Lemma extract_placeholders_after_render_witness :
  In (lit "code")
     (extract_placeholders
        (replace_placeholders (lit "Hi {{name}}, your code is {{code}}")
           [(lit "name", CStr (lit "Ana")); (lit "email", CStr (lit "ana@x.com"))])).
Proof.
  apply (extract_placeholders_after_render
           (lit "Hi {{name}}, your code is {{code}}")
           [(lit "name", CStr (lit "Ana")); (lit "email", CStr (lit "ana@x.com"))]
           (lit "code") eq_refl eq_refl).
  vm_compute. auto.
Defined.

Lemma template_of_cons ch chunks :
  template_of (ch :: chunks) = chunk_text ch ++ template_of chunks.
Proof. reflexivity. Qed.

(** One [str.replace] of the loop, on a template made of plain chunks. *)
Lemma replace_scan_chunks k v chunks :
  no_brace k = true -> forallb plain_chunk chunks = true ->
  replace_scan (token k) v (template_of chunks) =
  template_of (map (fill_key k v) chunks).
Proof.
  intros Hk. induction chunks as [|ch chunks IH]; intros H.
  - simp replace_scan. reflexivity.
  - cbn [forallb] in H. apply andb_true_iff in H as [Hch H].
    cbn [map]. rewrite !template_of_cons, <- (IH H).
    destruct ch as [w|n]; cbn [chunk_text fill_key plain_chunk] in *.
    + apply replace_scan_no_open. exact Hch.
    + pose proof (replace_scan_around_token k n v [] (template_of chunks) Hk Hch) as Hr.
      change ([] ++ token n ++ template_of chunks)
        with (token n ++ template_of chunks) in Hr.
      rewrite Hr. simp replace_scan. cbn [app].
      destruct (decide (k = n)); reflexivity.
Qed.

Lemma plain_chunk_fill_key k v chunks :
  no_open v = true -> forallb plain_chunk chunks = true ->
  forallb plain_chunk (map (fill_key k v) chunks) = true.
Proof.
  intros Hv. induction chunks as [|ch chunks IH]; intros H; [reflexivity|].
  cbn [forallb map] in *. apply andb_true_iff in H as [Hch H].
  rewrite (IH H), andb_true_r. destruct ch as [w|n]; [exact Hch|].
  cbn [fill_key]. destruct (decide (k = n)); [exact Hv|exact Hch].
Qed.

Lemma fill_cons k cv R ch :
  fill ((k, cv) :: R) ch = fill R (fill_key k (py_str cv) ch).
Proof.
  destruct ch as [w|n]; [reflexivity|]. cbn [fill fill_key dict_get].
  destruct (decide (k = n)); reflexivity.
Qed.

(** X5.  On a template made of literal text without opening braces and of
    tokens of names without braces, with a row whose keys have no braces
    and whose stringified values have no opening brace, rendering is a
    simultaneous substitution: every token of a key becomes the value of
    that key, every other token and all the text stay as they are. *)
Theorem replace_placeholders_fills_template chunks R :
  forallb plain_chunk chunks = true ->
  forallb no_brace (dict_keys R) = true ->
  forallb (fun kv => no_open (py_str kv.2)) R = true ->
  replace_placeholders (template_of chunks) R = concat (map (fill R) chunks).
Proof.
  revert chunks. induction R as [|[k cv] R IH]; intros chunks Hc Hk Hv.
  - reflexivity.
  - cbn [forallb dict_keys map fst snd] in Hk, Hv.
    apply andb_true_iff in Hk as [Hk HkR]. apply andb_true_iff in Hv as [Hv HvR].
    rewrite replace_placeholders_cons, str_replace_token.
    rewrite (replace_scan_chunks k (py_str cv) chunks Hk Hc).
    rewrite (IH _ (plain_chunk_fill_key k _ chunks Hv Hc) HkR HvR).
    rewrite map_map. f_equal. apply map_ext. intros ch. symmetry. apply fill_cons.
Qed.

Lemma replace_placeholders_fills_template_witness :
  replace_placeholders
    (template_of [Text (lit "Hi "); Slot (lit "name"); Text (lit ", code ");
                  Slot (lit "code"); Text (lit "!")])
    [(lit "name", CStr (lit "Ana")); (lit "email", CStr (lit "ana@x.com"))] =
  lit "Hi Ana, code {{code}}!".
Proof.
  exact (replace_placeholders_fills_template
           [Text (lit "Hi "); Slot (lit "name"); Text (lit ", code ");
            Slot (lit "code"); Text (lit "!")]
           [(lit "name", CStr (lit "Ana")); (lit "email", CStr (lit "ana@x.com"))]
           eq_refl eq_refl eq_refl).
Defined.

(** ** [validate_csv_columns], case by case *)

Lemma validate_csv_columns_missing df :
  ~ (In (lit "name") (columns df) /\ In (lit "email") (columns df)) ->
  exists msg, validate_csv_columns df = Ret (false, msg).
Proof.
  intros H. unfold validate_csv_columns.
  destruct (filter (fun col => col ∉ columns df) required_columns) eqn:Hm.
  - apply missing_columns_nil in Hm. contradiction.
  - eexists. reflexivity.
Qed.

(** The checks after the columns were found. *)
Lemma validate_csv_columns_found df :
  In (lit "name") (columns df) -> In (lit "email") (columns df) ->
  validate_csv_columns df =
  if has_blank (column df (lit "name"))
  then Ret (false, lit "Column '" ++ lit "name" ++ lit "' contains empty values")
  else if has_blank (column df (lit "email"))
  then Ret (false, lit "Column '" ++ lit "email" ++ lit "' contains empty values")
  else
    rbind (invalid_emails 0 (column df (lit "email"))) (fun invalid =>
      match invalid with
      | _ :: _ =>
          Ret (false, lit "Invalid email addresses found:" ++ [LF]
                      ++ join [LF] (take 5 invalid))
      | [] => Ret (true, lit "CSV validation successful")
      end).
Proof.
  intros H1 H2. unfold validate_csv_columns.
  rewrite (proj2 (missing_columns_nil df)) by auto.
  rewrite (first_empty_column_required _ H1 H2). cbn [rbind].
  destruct (has_blank (column df (lit "name"))); [reflexivity|].
  destruct (has_blank (column df (lit "email"))); [reflexivity|].
  rewrite (df_getitem_present _ _ H2). reflexivity.
Qed.

(** The loop over the e-mails raises when a cell is not a string. *)
Lemma invalid_emails_raise idx emails :
  forallb is_text emails = false ->
  invalid_emails idx emails = Raise (lit "expected string or bytes-like object").
Proof.
  revert idx. induction emails as [|e emails IH]; intros idx H; [discriminate|].
  cbn [forallb] in H. destruct e as [s| |]; try reflexivity.
  cbn [is_text andb] in H. cbn [invalid_emails validate_email_cell rbind].
  rewrite (IH (S idx) H). reflexivity.
Qed.

Lemma offending_nil_passes first emails :
  forallb is_text emails = true -> offending first emails = [] ->
  forallb passes_format emails = true.
Proof.
  revert first. induction emails as [|c emails IH]; intros first Ht Ho; [reflexivity|].
  cbn [forallb] in Ht. apply andb_true_iff in Ht as [Hc Ht].
  destruct c as [s| |]; try discriminate.
  unfold offending in Ho. cbn [length seq map zip zip_with List.filter py_str snd] in Ho.
  cbn [forallb passes_format].
  destruct (validate_email s); cbn [negb] in Ho; [|discriminate].
  apply (IH (S first) Ht Ho).
Qed.

(** What an accepted table is like. *)
Lemma validate_csv_columns_accepted df msg :
  validate_csv_columns df = Ret (true, msg) ->
  In (lit "name") (columns df) /\ In (lit "email") (columns df) /\
  has_blank (column df (lit "name")) = false /\
  forallb passes_format (column df (lit "email")) = true /\
  msg = lit "CSV validation successful".
Proof.
  intros H.
  destruct (decide (lit "name" ∈ columns df)) as [H1|H1];
    [|destruct (validate_csv_columns_missing df) as [m Hm];
      [rewrite <- !list_elem_of_In; tauto|congruence]].
  destruct (decide (lit "email" ∈ columns df)) as [H2|H2];
    [|destruct (validate_csv_columns_missing df) as [m Hm];
      [rewrite <- !list_elem_of_In; tauto|congruence]].
  apply list_elem_of_In in H1, H2.
  rewrite (validate_csv_columns_found df H1 H2) in H.
  destruct (has_blank (column df (lit "name"))); [discriminate|].
  destruct (has_blank (column df (lit "email"))); [discriminate|].
  destruct (forallb is_text (column df (lit "email"))) eqn:Ht.
  - rewrite (invalid_emails_text 0 _ Ht) in H. cbn [rbind Nat.add] in H.
    destruct (offending 1 (column df (lit "email"))) eqn:Ho; [|discriminate].
    injection H as <-. repeat split; auto.
    apply (offending_nil_passes 1); assumption.
  - rewrite (invalid_emails_raise 0 _ Ht) in H. discriminate.
Qed.

(** X6.  [validate_csv_columns] accepts a table exactly when it has the
    [name] and [email] columns, no missing or empty name, and every e-mail
    is a string passing the format check; the message is then the success
    message. *)
Theorem validate_csv_columns_accepts_iff df msg :
  validate_csv_columns df = Ret (true, msg) <->
  In (lit "name") (columns df) /\ In (lit "email") (columns df) /\
  has_blank (column df (lit "name")) = false /\
  forallb passes_format (column df (lit "email")) = true /\
  msg = lit "CSV validation successful".
Proof.
  split; [apply validate_csv_columns_accepted|].
  intros (H1 & H2 & Hn & Hp & ->).
  apply passes_format_column in Hp as (He & Ht & Ho).
  rewrite (validate_csv_columns_found df H1 H2), Hn, He.
  rewrite (invalid_emails_text 0 _ Ht). cbn [rbind Nat.add]. rewrite Ho. reflexivity.
Qed.

(** X7.  [validate_csv_columns] raises (the [TypeError] of [re.match])
    exactly when the table has both columns, no missing or empty name or
    e-mail, and an e-mail cell that is not a string: a check that fails
    earlier hides the exception. *)
Theorem validate_csv_columns_raises_iff df :
  (exists e, validate_csv_columns df = Raise e) <->
  In (lit "name") (columns df) /\ In (lit "email") (columns df) /\
  has_blank (column df (lit "name")) = false /\
  has_blank (column df (lit "email")) = false /\
  forallb is_text (column df (lit "email")) = false.
Proof.
  split.
  - intros [e H].
    destruct (decide (lit "name" ∈ columns df)) as [H1|H1];
      [|destruct (validate_csv_columns_missing df) as [m Hm];
        [rewrite <- !list_elem_of_In; tauto|congruence]].
    destruct (decide (lit "email" ∈ columns df)) as [H2|H2];
      [|destruct (validate_csv_columns_missing df) as [m Hm];
        [rewrite <- !list_elem_of_In; tauto|congruence]].
    apply list_elem_of_In in H1, H2.
    rewrite (validate_csv_columns_found df H1 H2) in H.
    destruct (has_blank (column df (lit "name"))); [discriminate|].
    destruct (has_blank (column df (lit "email"))); [discriminate|].
    destruct (forallb is_text (column df (lit "email"))) eqn:Ht; [|auto].
    rewrite (invalid_emails_text 0 _ Ht) in H. cbn [rbind Nat.add] in H.
    destruct (offending 1 (column df (lit "email"))); discriminate.
  - intros (H1 & H2 & Hn & He & Ht).
    rewrite (validate_csv_columns_found df H1 H2), Hn, He.
    rewrite (invalid_emails_raise 0 _ Ht). eexists. reflexivity.
Qed.

(** X8.  When both columns are present the empty-value message names the
    first of [name], [email] that has a missing or empty value, whatever
    the e-mails are: a table with an empty name is reported for [name] even
    if e-mails are empty or malformed too. *)
Theorem validate_csv_columns_empty_column df :
  In (lit "name") (columns df) -> In (lit "email") (columns df) ->
  (has_blank (column df (lit "name")) = true ->
   validate_csv_columns df =
   Ret (false, lit "Column 'name' contains empty values")) /\
  (has_blank (column df (lit "name")) = false ->
   has_blank (column df (lit "email")) = true ->
   validate_csv_columns df =
   Ret (false, lit "Column 'email' contains empty values")).
Proof.
  intros H1 H2. rewrite (validate_csv_columns_found df H1 H2). split.
  - intros ->. reflexivity.
  - intros -> ->. reflexivity.
Qed.

Lemma validate_csv_columns_empty_column_witness :
  validate_csv_columns
    {| columns := [lit "email"; lit "name"];
       rows := [[CNull; CStr []]; [CStr (lit "not-an-email"); CStr (lit "Bo")]] |} =
  Ret (false, lit "Column 'name' contains empty values").
Proof.
  refine (proj1 (validate_csv_columns_empty_column
                   {| columns := [lit "email"; lit "name"];
                      rows := [[CNull; CStr []];
                               [CStr (lit "not-an-email"); CStr (lit "Bo")]] |} _ _)
                eq_refl); simpl; auto.
Defined.

(** ** [send_email] *)

(** X9.  [send_email] never raises and never touches the recorded results:
    whatever lines 50-60 (building the message and [server.send_message])
    do, it returns a pair, [True] with the success message when they return,
    and [False] with [Failed to send email: ] followed by the text of the
    exception when they raise. *)
Theorem send_email_never_raises env idx sender_email recipient_email subject body
    is_html st :
  let msg := {| msg_from := sender_email; msg_to := recipient_email;
                msg_subject := subject; msg_body := body; msg_html := is_html |} in
  let r := send_email env idx sender_email recipient_email subject body is_html st in
  (exists ok text, r.1 = Ret (ok, text)) /\
  email_results r.2 = email_results st /\
  (smtp_send env idx msg = None -> r.1 = Ret (true, lit "Email sent successfully")) /\
  (forall e, smtp_send env idx msg = Some e ->
             r.1 = Ret (false, lit "Failed to send email: " ++ e)).
Proof.
  intros msg r. unfold r, msg, send_email, try_except, bind, call, emit, outcome, ret.
  cbn. destruct (smtp_send env idx _) as [e|]; cbn.
  - split; [eauto|]. split; [reflexivity|]. split; [discriminate|].
    intros e' [= <-]. reflexivity.
  - split; [eauto|]. split; [reflexivity|]. split; [reflexivity|].
    intros e' H. discriminate H.
Qed.

Lemma send_email_never_raises_witness :
  (send_email
     {| smtp_connect := None; smtp_starttls := None; smtp_login := fun _ _ => None;
        smtp_send := fun _ _ => Some (lit "550 rejected"); smtp_quit := None;
        ui_setup := None; ui_progress := fun _ => None; ui_status := fun _ => None;
        ui_done := None |}
     0 (lit "me@x.com") (CStr (lit "a@b.com")) (lit "Hello") (lit "Hi Ana") false
     (initial_state [])).1
  = Ret (false, lit "Failed to send email: 550 rejected").
Proof.
  exact (proj2 (proj2 (proj2 (send_email_never_raises
           {| smtp_connect := None; smtp_starttls := None;
              smtp_login := fun _ _ => None;
              smtp_send := fun _ _ => Some (lit "550 rejected"); smtp_quit := None;
              ui_setup := None; ui_progress := fun _ => None;
              ui_status := fun _ => None; ui_done := None |}
           0 (lit "me@x.com") (CStr (lit "a@b.com")) (lit "Hello") (lit "Hi Ana") false
           (initial_state []))))
         (lit "550 rejected") eq_refl).
Defined.

(** ** The send branch, path by path *)

Lemma run_invalid_sender env template_content is_html df sender_email sender_password
    email_subject previous :
  validate_email sender_email = false ->
  run env template_content is_html df sender_email sender_password email_subject previous
  = {| email_results := []; trace := [EvError (lit "Invalid sender email address")] |}.
Proof.
  intros Hv. unfold run, main_send_all. unfold bind at 1.
  cbn [set_results initial_state]. rewrite Hv. reflexivity.
Qed.

(** The run when the connection phase or the set-up of the widgets raises. *)
Lemma run_not_started env template_content is_html df sender_email sender_password
    email_subject previous :
  validate_email sender_email = true ->
  forall e calls,
    (smtp_connect env = Some e /\ calls = [EvConnect]) \/
    (smtp_connect env = None /\ smtp_starttls env = Some e /\
     calls = [EvConnect; EvStartTLS]) \/
    (smtp_connect env = None /\ smtp_starttls env = None /\
     smtp_login env sender_email sender_password = Some e /\
     calls = [EvConnect; EvStartTLS; EvLogin sender_email sender_password]) \/
    (smtp_connect env = None /\ smtp_starttls env = None /\
     smtp_login env sender_email sender_password = None /\ ui_setup env = Some e /\
     calls = [EvConnect; EvStartTLS; EvLogin sender_email sender_password]) ->
    run env template_content is_html df sender_email sender_password email_subject
        previous
    = {| email_results := [];
         trace := calls ++ [EvError (lit "SMTP connection error: " ++ e)] |}.
Proof.
  intros Hv e calls H. unfold run, main_send_all. unfold bind at 1.
  cbn [set_results initial_state]. rewrite Hv. cbn [negb]. unfold try_except.
  destruct H as [(Hc & ->)|[(Hc & Ht & ->)|[(Hc & Ht & Hl & ->)|(Hc & Ht & Hl & Hu & ->)]]].
  - step_call Hc. reflexivity.
  - step_call Hc. step_call Ht. reflexivity.
  - step_call Hc. step_call Ht. step_call Hl. reflexivity.
  - step_call Hc. step_call Ht. step_call Hl. unfold bind at 1. rewrite Hu. reflexivity.
Qed.

Lemma in_iterrows df p :
  In p (iterrows df) ->
  exists row, rows df !! p.1 = Some row /\ p.2 = to_dict (columns df) row.
Proof.
  unfold iterrows. intros H. apply list_elem_of_In, elem_of_lookup_imap in H.
  destruct H as (i & row & -> & Hrow). exists row. auto.
Qed.

Lemma errors_of_app tr1 tr2 : errors_of (tr1 ++ tr2) = errors_of tr1 ++ errors_of tr2.
Proof. apply flat_map_app. Qed.

Lemma errors_of_rows env template_content is_html sender_email email_subject l :
  errors_of (flat_map (row_events env template_content is_html sender_email email_subject) l)
  = [].
Proof.
  induction l as [|p l IH]; [reflexivity|].
  cbn [flat_map]. rewrite errors_of_app, IH. unfold row_events.
  destruct (ui_progress env p.1), (ui_status env p.1); reflexivity.
Qed.

(** X10.  With a sender address that fails the format check the branch
    clears the results, reports the invalid address and does nothing else:
    no connection is opened. *)
Theorem send_all_invalid_sender env template_content is_html df sender_email
    sender_password email_subject previous :
  validate_email sender_email = false ->
  let st := run env template_content is_html df sender_email sender_password
                email_subject previous in
  email_results st = [] /\
  trace st = [EvError (lit "Invalid sender email address")].
Proof.
  intros Hv st. unfold st.
  rewrite (run_invalid_sender env template_content is_html df sender_email
             sender_password email_subject previous Hv). auto.
Qed.

Lemma send_all_invalid_sender_witness :
  let env := {| smtp_connect := None; smtp_starttls := None;
                smtp_login := fun _ _ => None; smtp_send := fun _ _ => None;
                smtp_quit := None; ui_setup := None; ui_progress := fun _ => None;
                ui_status := fun _ => None; ui_done := None |} in
  let df := {| columns := [lit "name"; lit "email"];
               rows := [[CStr (lit "Ana"); CStr (lit "a@b.com")]] |} in
  trace (run env (lit "Hi {{name}}") false df (lit "me@x") (lit "pw") (lit "Hello") [])
  = [EvError (lit "Invalid sender email address")].
Proof.
  intros env df.
  exact (proj2 (send_all_invalid_sender env (lit "Hi {{name}}") false df (lit "me@x")
                  (lit "pw") (lit "Hello") [] eq_refl)).
Defined.

(** X11.  Each press of "Send All Emails" starts from an empty list of
    results: on every path the state the branch ends in does not depend on
    the results recorded before. *)
Theorem send_all_discards_previous env template_content is_html df sender_email
    sender_password email_subject previous :
  run env template_content is_html df sender_email sender_password email_subject previous
  = run env template_content is_html df sender_email sender_password email_subject [].
Proof. unfold run, main_send_all. unfold bind at 1 3. reflexivity. Qed.

(** X14.  When connecting, the TLS upgrade or the login raises, the calls
    to the transport stop at the one that raised and [server.quit()] is not
    called: a connection that [SMTP()] opened is not closed by the branch
    when the upgrade or the login fails. *)
Theorem send_all_connection_failure_no_quit env template_content is_html df
    sender_email sender_password email_subject previous e :
  validate_email sender_email = true ->
  let st := run env template_content is_html df sender_email sender_password
                email_subject previous in
  let report := EvError (lit "SMTP connection error: " ++ e) in
  (smtp_connect env = Some e -> trace st = [EvConnect; report]) /\
  (smtp_connect env = None -> smtp_starttls env = Some e ->
   trace st = [EvConnect; EvStartTLS; report]) /\
  (smtp_connect env = None -> smtp_starttls env = None ->
   smtp_login env sender_email sender_password = Some e ->
   trace st = [EvConnect; EvStartTLS; EvLogin sender_email sender_password; report]).
Proof.
  intros Hv st report. unfold st, report. repeat split; intros.
  - rewrite (run_not_started env template_content is_html df sender_email
               sender_password email_subject previous Hv e [EvConnect]);
      [reflexivity|]. left. auto.
  - rewrite (run_not_started env template_content is_html df sender_email
               sender_password email_subject previous Hv e [EvConnect; EvStartTLS]);
      [reflexivity|]. right. left. auto.
  - rewrite (run_not_started env template_content is_html df sender_email
               sender_password email_subject previous Hv e
               [EvConnect; EvStartTLS; EvLogin sender_email sender_password]);
      [reflexivity|]. right. right. left. auto.
Qed.

Lemma send_all_connection_failure_no_quit_witness :
  let env := {| smtp_connect := None; smtp_starttls := None;
                smtp_login := fun _ _ => Some (lit "535 bad credentials");
                smtp_send := fun _ _ => None;
                smtp_quit := None; ui_setup := None; ui_progress := fun _ => None;
                ui_status := fun _ => None; ui_done := None |} in
  let df := {| columns := [lit "name"; lit "email"];
               rows := [[CStr (lit "Ana"); CStr (lit "a@b.com")]] |} in
  trace (run env (lit "Hi {{name}}") false df (lit "me@x.com") (lit "pw") (lit "Hello") [])
  = [EvConnect; EvStartTLS; EvLogin (lit "me@x.com") (lit "pw");
     EvError (lit "SMTP connection error: 535 bad credentials")].
Proof.
  intros env df.
  exact (proj2 (proj2 (send_all_connection_failure_no_quit env (lit "Hi {{name}}") false
                         df (lit "me@x.com") (lit "pw") (lit "Hello") []
                         (lit "535 bad credentials") eq_refl))
               eq_refl eq_refl eq_refl).
Defined.

Lemma in_column df row col :
  In row (rows df) -> In (row_cell df row col) (column df col).
Proof. intros H. unfold column. apply in_map_iff. exists row. auto. Qed.

(** Every message handed to the transport is the message of a row. *)
Lemma in_trace_send env template_content is_html df sender_email sender_password
    email_subject previous idx m :
  In (lit "name") (columns df) -> In (lit "email") (columns df) ->
  In (EvSend idx m)
     (trace (run env template_content is_html df sender_email sender_password
                 email_subject previous)) ->
  exists row,
    rows df !! idx = Some row /\
    m = row_message template_content is_html sender_email email_subject
          (to_dict (columns df) row).
Proof.
  intros Hn He.
  destruct (validate_email sender_email) eqn:Hv;
    [|rewrite (run_invalid_sender _ _ _ _ _ _ _ _ Hv); cbn;
      intros [H|[]]; discriminate H].
  pose proof (run_not_started env template_content is_html df sender_email
                sender_password email_subject previous Hv) as Hfail.
  destruct (smtp_connect env) as [e|] eqn:Hc.
  { rewrite (Hfail e [EvConnect]) by (left; auto). cbn.
    intros [H|[H|[]]]; discriminate H. }
  destruct (smtp_starttls env) as [e|] eqn:Ht.
  { rewrite (Hfail e [EvConnect; EvStartTLS]) by (right; left; auto). cbn.
    intros [H|[H|[H|[]]]]; discriminate H. }
  destruct (smtp_login env sender_email sender_password) as [e|] eqn:Hl.
  { rewrite (Hfail e [EvConnect; EvStartTLS; EvLogin sender_email sender_password])
      by (right; right; left; auto). cbn.
    intros [H|[H|[H|[H|[]]]]]; discriminate H. }
  destruct (ui_setup env) as [e|] eqn:Hu.
  { rewrite (Hfail e [EvConnect; EvStartTLS; EvLogin sender_email sender_password])
      by (right; right; right; auto 6). cbn.
    intros [H|[H|[H|[H|[]]]]]; discriminate H. }
  rewrite (run_connected env template_content is_html df sender_email sender_password
             email_subject previous Hv Hn He Hc Ht Hl Hu).
  cbn [trace]. rewrite !in_app_iff. intros [H|[H|H]].
  - cbn in H. destruct H as [H|[H|[H|[]]]]; discriminate H.
  - apply in_flat_map in H as (p & Hp & Hev).
    apply in_iterrows in Hp as (row & Hrow & Hd). unfold row_events in Hev.
    destruct (ui_progress env p.1), (ui_status env p.1); cbn in Hev;
      try contradiction.
    destruct Hev as [[= <- <-]|[]]. exists row. rewrite Hd. auto.
  - destruct H as [H|H]; [discriminate H|].
    destruct (smtp_quit env), (ui_done env); cbn in H;
      try contradiction; destruct H as [H|[]]; discriminate H.
Qed.

(** X12.  On a table that [validate_csv_columns] accepts, once the session
    is acquired and the loop entered, every row leaves exactly one outcome,
    in row order, whatever fails and for however many rows: the outcome of a
    row carries its name and its e-mail, which is a string passing the format
    check; it is a success exactly when the two widget calls and the
    transport returned for that row, with the success message; when a widget
    call raised, its message is [Error: ] followed by the text of that
    exception, and when the transport raised, [Failed to send email: ]
    followed by the text of that exception. *)
Theorem send_all_outcomes env template_content is_html df sender_email sender_password
    email_subject previous msg :
  validate_csv_columns df = Ret (true, msg) ->
  validate_email sender_email = true ->
  smtp_connect env = None -> smtp_starttls env = None ->
  smtp_login env sender_email sender_password = None ->
  ui_setup env = None ->
  let st := run env template_content is_html df sender_email sender_password
                email_subject previous in
  length (email_results st) = length (rows df) /\
  forall i row,
    rows df !! i = Some row ->
    exists o address,
      email_results st !! i = Some o /\
      recipient o = CStr address /\ validate_email address = true /\
      name o = row_cell df row (lit "name") /\
      (success o = true <->
       ui_progress env i = None /\ ui_status env i = None /\
       smtp_send env i (row_message template_content is_html sender_email email_subject
                          (to_dict (columns df) row)) = None) /\
      (success o = true -> message o = lit "Email sent successfully") /\
      (forall e, ui_progress env i = Some e -> message o = lit "Error: " ++ e) /\
      (forall e, ui_progress env i = None -> ui_status env i = Some e ->
                 message o = lit "Error: " ++ e) /\
      (forall e, ui_progress env i = None -> ui_status env i = None ->
                 smtp_send env i (row_message template_content is_html sender_email
                                    email_subject (to_dict (columns df) row)) = Some e ->
                 message o = lit "Failed to send email: " ++ e).
Proof.
  intros Hval Hv Hc Ht Hl Hu st. unfold st.
  apply validate_csv_columns_accepted in Hval as (Hn & He & _ & Hp & _).
  rewrite (run_connected env template_content is_html df sender_email sender_password
             email_subject previous Hv Hn He Hc Ht Hl Hu).
  cbn [email_results]. split; [rewrite length_map; apply length_iterrows|].
  intros i row Hi.
  assert (Hcell : passes_format (row_cell df row (lit "email")) = true).
  { rewrite forallb_forall in Hp. apply Hp, in_column.
    apply list_elem_of_In, list_elem_of_lookup. eauto. }
  unfold row_cell in Hcell.
  destruct (default CNull (dict_get (to_dict (columns df) row) (lit "email")))
    as [address| |] eqn:Hcol; try discriminate.
  eexists _, address. split; [apply lookup_outcomes, Hi|].
  unfold row_outcome, row_cell. cbn [fst snd recipient name success message].
  split; [exact Hcol|]. split; [exact Hcell|]. split; [reflexivity|].
  destruct (ui_progress env i) as [e1|]; [|destruct (ui_status env i) as [e2|];
    [|destruct (smtp_send env i _) as [e3|]]]; cbn.
  - split; [split; [discriminate|intros (H & _); discriminate H]|].
    split; [discriminate|]. split; [intros e [= <-]; reflexivity|].
    split; intros; discriminate.
  - split; [split; [discriminate|intros (_ & H & _); discriminate H]|].
    split; [discriminate|]. split; [intros; discriminate|].
    split; [intros e _ [= <-]; reflexivity|intros; discriminate].
  - split; [split; [discriminate|intros (_ & _ & H); discriminate H]|].
    split; [discriminate|]. split; [intros; discriminate|].
    split; [intros; discriminate|intros e _ _ [= <-]; reflexivity].
  - split; [split; auto|]. split; [reflexivity|].
    split; [intros; discriminate|]. split; intros; discriminate.
Qed.

Lemma send_all_outcomes_witness :
  let env := {| smtp_connect := None; smtp_starttls := None;
                smtp_login := fun _ _ => None;
                smtp_send := fun i _ => if Nat.eqb i 2 then None else Some (lit "421 busy");
                smtp_quit := None; ui_setup := None;
                ui_progress := fun _ => None;
                ui_status := fun i => if Nat.eqb i 0 then Some (lit "widget") else None;
                ui_done := None |} in
  let df := {| columns := [lit "name"; lit "email"];
               rows := [[CStr (lit "Ana"); CStr (lit "a@b.com")];
                        [CStr (lit "Bo"); CStr (lit "bo@c.org")];
                        [CStr (lit "Cy"); CStr (lit "c@d.org")]] |} in
  length (email_results (run env (lit "Hi {{name}}") true df (lit "me@x.com") (lit "pw")
                             (lit "Hello") [])) = 3.
Proof.
  intros env df.
  exact (proj1 (send_all_outcomes env (lit "Hi {{name}}") true df (lit "me@x.com")
                  (lit "pw") (lit "Hello") [] (lit "CSV validation successful")
                  eq_refl eq_refl eq_refl eq_refl eq_refl eq_refl)).
Defined.

(** X13.  Whatever fails, a message is handed to the transport only for a
    row of the table, and it is the message of that row: from the sender, to
    the e-mail of the row, with the subject and the content type of the run,
    its body the template rendered with the row. *)
Theorem send_all_messages env template_content is_html df sender_email sender_password
    email_subject previous idx m :
  In (lit "name") (columns df) -> In (lit "email") (columns df) ->
  In (EvSend idx m)
     (trace (run env template_content is_html df sender_email sender_password
                 email_subject previous)) ->
  exists row,
    rows df !! idx = Some row /\
    msg_from m = sender_email /\
    msg_to m = row_cell df row (lit "email") /\
    msg_subject m = email_subject /\
    msg_html m = is_html /\
    msg_body m = replace_placeholders template_content (to_dict (columns df) row).
Proof.
  intros Hn He H.
  destruct (in_trace_send _ _ _ _ _ _ _ _ _ _ Hn He H) as (row & Hrow & ->).
  exists row. cbn. auto 6.
Qed.

Lemma send_all_messages_witness :
  let env := {| smtp_connect := None; smtp_starttls := None;
                smtp_login := fun _ _ => None; smtp_send := fun _ _ => None;
                smtp_quit := None; ui_setup := None; ui_progress := fun _ => None;
                ui_status := fun _ => None; ui_done := None |} in
  let df := {| columns := [lit "name"; lit "email"];
               rows := [[CStr (lit "Ana"); CStr (lit "a@b.com")]] |} in
  let m := {| msg_from := lit "me@x.com"; msg_to := CStr (lit "a@b.com");
              msg_subject := lit "Hello"; msg_body := lit "Hi Ana";
              msg_html := false |} in
  exists row, rows df !! 0 = Some row /\ msg_from m = lit "me@x.com".
Proof.
  intros env df m.
  destruct (send_all_messages env (lit "Hi {{name}}") false df (lit "me@x.com")
              (lit "pw") (lit "Hello") [] 0 m)
    as (row & Hrow & Hfrom & _).
  - simpl. auto.
  - simpl. auto.
  - vm_compute. auto 6.
  - exists row. auto.
Defined.

(** X15.  Once the loop has run, only what follows it is reported with
    [st.error]: a failure of [server.quit()] or of the closing widget calls
    is reported as a connection error although every row was processed and
    has left its outcome; when they return, nothing is reported, however
    many rows failed. *)
Theorem send_all_reports env template_content is_html df sender_email sender_password
    email_subject previous :
  validate_email sender_email = true ->
  In (lit "name") (columns df) -> In (lit "email") (columns df) ->
  smtp_connect env = None -> smtp_starttls env = None ->
  smtp_login env sender_email sender_password = None ->
  ui_setup env = None ->
  let st := run env template_content is_html df sender_email sender_password
                email_subject previous in
  length (email_results st) = length (rows df) /\
  (forall e, smtp_quit env = Some e ->
             errors_of (trace st) = [lit "SMTP connection error: " ++ e]) /\
  (forall e, smtp_quit env = None -> ui_done env = Some e ->
             errors_of (trace st) = [lit "SMTP connection error: " ++ e]) /\
  (smtp_quit env = None -> ui_done env = None -> errors_of (trace st) = []).
Proof.
  intros Hv Hn He Hc Ht Hl Hu st. unfold st.
  rewrite (run_connected env template_content is_html df sender_email sender_password
             email_subject previous Hv Hn He Hc Ht Hl Hu).
  cbn [email_results trace]. split; [rewrite length_map; apply length_iterrows|].
  rewrite !errors_of_app, errors_of_rows.
  repeat split; intros; repeat match goal with H : _ = _ |- _ => rewrite H end;
    reflexivity.
Qed.

Lemma send_all_reports_witness :
  let env := {| smtp_connect := None; smtp_starttls := None;
                smtp_login := fun _ _ => None; smtp_send := fun _ _ => None;
                smtp_quit := Some (lit "connection lost"); ui_setup := None;
                ui_progress := fun _ => None; ui_status := fun _ => None;
                ui_done := None |} in
  let df := {| columns := [lit "name"; lit "email"];
               rows := [[CStr (lit "Ana"); CStr (lit "a@b.com")]] |} in
  errors_of (trace (run env (lit "Hi {{name}}") false df (lit "me@x.com") (lit "pw")
                        (lit "Hello") []))
  = [lit "SMTP connection error: connection lost"].
Proof.
  intros env df.
  refine (proj1 (proj2 (send_all_reports env (lit "Hi {{name}}") false df
                          (lit "me@x.com") (lit "pw") (lit "Hello") []
                          eq_refl _ _ eq_refl eq_refl eq_refl eq_refl))
                (lit "connection lost") eq_refl); simpl; auto.
Defined.

(** X16.  A table with the two columns and no row passes validation, and
    "Send All Emails" on it opens a session, sends nothing, records nothing
    and closes the session. *)
Theorem send_all_empty_table env template_content is_html df sender_email
    sender_password email_subject previous :
  In (lit "name") (columns df) -> In (lit "email") (columns df) ->
  rows df = [] ->
  validate_csv_columns df = Ret (true, lit "CSV validation successful") /\
  (validate_email sender_email = true ->
   smtp_connect env = None -> smtp_starttls env = None ->
   smtp_login env sender_email sender_password = None ->
   ui_setup env = None -> smtp_quit env = None -> ui_done env = None ->
   run env template_content is_html df sender_email sender_password email_subject previous
   = {| email_results := [];
        trace := [EvConnect; EvStartTLS; EvLogin sender_email sender_password;
                  EvQuit] |}).
Proof.
  intros Hn He Hrows. split.
  - rewrite (validate_csv_columns_found df Hn He). unfold column. rewrite Hrows.
    reflexivity.
  - intros Hv Hc Ht Hl Hu Hq Hd.
    rewrite (run_connected env template_content is_html df sender_email sender_password
               email_subject previous Hv Hn He Hc Ht Hl Hu).
    unfold iterrows. rewrite Hrows, Hq, Hd. reflexivity.
Qed.

Lemma send_all_empty_table_witness :
  validate_csv_columns {| columns := [lit "name"; lit "email"]; rows := [] |}
  = Ret (true, lit "CSV validation successful").
Proof.
  refine (proj1 (send_all_empty_table
                   {| smtp_connect := None; smtp_starttls := None;
                      smtp_login := fun _ _ => None; smtp_send := fun _ _ => None;
                      smtp_quit := None; ui_setup := None;
                      ui_progress := fun _ => None; ui_status := fun _ => None;
                      ui_done := None |}
                   [] false {| columns := [lit "name"; lit "email"]; rows := [] |}
                   [] [] [] [] _ _ eq_refl)); simpl; auto.
Defined.

(** ** The results section *)

(** X17.  The two tabs split the results: an outcome is listed under
    "Successful" exactly when it is a recorded success and under "Failed"
    exactly when it is a recorded failure, both lists keep the order of the
    results, and the "Successful" and "Failed" metrics add up to the
    "Total Sent" metric. *)
Theorem results_partition email_results :
  (forall r, In r (successful email_results) <-> In r email_results /\ success r = true) /\
  (forall r, In r (failed email_results) <-> In r email_results /\ success r = false) /\
  sublist (successful email_results) email_results /\
  sublist (failed email_results) email_results /\
  length (successful email_results) + length (failed email_results)
  = length email_results.
Proof.
  unfold successful, failed. split; [|split; [|split; [|split]]].
  - intros r. apply filter_In.
  - intros r. rewrite filter_In, negb_true_iff. reflexivity.
  - induction email_results as [|r l IH]; [constructor|].
    cbn [List.filter]. destruct (success r); [apply sublist_skip|apply sublist_cons];
      exact IH.
  - induction email_results as [|r l IH]; [constructor|].
    cbn [List.filter]. destruct (negb (success r));
      [apply sublist_skip|apply sublist_cons]; exact IH.
  - induction email_results as [|r l IH]; [reflexivity|].
    cbn [List.filter length]. destruct (success r); cbn [negb length]; lia.
Qed.

Lemma metrics_add_up email_results :
  length (successful email_results) + length (failed email_results)
  = length email_results.
Proof.
  unfold successful, failed. induction email_results as [|r l IH]; [reflexivity|].
  cbn [List.filter length]. destruct (success r); cbn [negb length]; lia.
Qed.

Lemma filter_map_comm {A B} (f : B -> bool) (g : A -> B) l :
  List.filter f (map g l) = map g (List.filter (fun x => f (g x)) l).
Proof.
  induction l as [|x l IH]; [reflexivity|]. cbn [map List.filter].
  destruct (f (g x)); cbn [map]; rewrite IH; reflexivity.
Qed.

Lemma filter_seq_out k a n :
  k < a -> List.filter (fun i => Nat.eqb i k) (seq a n) = [].
Proof.
  revert a. induction n as [|n IH]; intros a H; [reflexivity|].
  cbn [seq List.filter]. destruct (Nat.eqb_spec a k); [lia|]. apply IH. lia.
Qed.

Lemma filter_seq_in k a n :
  a <= k < a + n -> List.filter (fun i => Nat.eqb i k) (seq a n) = [k].
Proof.
  revert a. induction n as [|n IH]; intros a H; [lia|].
  cbn [seq List.filter]. destruct (Nat.eqb_spec a k) as [->|Hne].
  - rewrite filter_seq_out by lia. reflexivity.
  - apply IH. lia.
Qed.

(** X18.  With a transport error on row [k] alone (as in C1, [k] being a
    row of the table), the metrics of the results section read: total the
    number of rows, successful one less, failed one. *)
Theorem send_all_one_failure_metrics env template_content is_html df sender_email
    sender_password email_subject previous k reason :
  validate_email sender_email = true ->
  In (lit "name") (columns df) -> In (lit "email") (columns df) ->
  smtp_connect env = None -> smtp_starttls env = None ->
  smtp_login env sender_email sender_password = None ->
  ui_setup env = None ->
  (forall i, ui_progress env i = None) -> (forall i, ui_status env i = None) ->
  (forall m, smtp_send env k m = Some reason) ->
  (forall i m, i <> k -> smtp_send env i m = None) ->
  k < length (rows df) ->
  metrics (email_results (run env template_content is_html df sender_email
                              sender_password email_subject previous))
  = (length (rows df), length (rows df) - 1, 1).
Proof.
  intros Hv Hn He Hc Ht Hl Hu Hprog Hstat Hk Hother Hlt.
  rewrite (run_connected env template_content is_html df sender_email sender_password
             email_subject previous Hv Hn He Hc Ht Hl Hu).
  cbn [email_results]. unfold metrics.
  set (results := map (row_outcome env template_content is_html sender_email
                         email_subject) (iterrows df)).
  assert (Hlen : length results = length (rows df))
    by (unfold results; rewrite length_map; apply length_iterrows).
  assert (Hfailed : length (failed results) = 1).
  { unfold failed, results. rewrite filter_map_comm, length_map.
    rewrite (filter_ext _ (fun p => Nat.eqb (fst p) k)).
    - rewrite <- (length_map fst), <- (filter_map_comm (fun i => Nat.eqb i k) fst).
      rewrite iterrows_labels, filter_seq_in by lia. reflexivity.
    - intros p. unfold row_outcome. cbn [success fst snd].
      rewrite Hprog, Hstat. destruct (Nat.eqb_spec p.1 k) as [->|Hne].
      + rewrite Hk. reflexivity.
      + rewrite (Hother _ _ Hne). reflexivity. }
  pose proof (metrics_add_up results) as Hsum.
  rewrite Hlen, Hfailed. f_equal. f_equal. lia.
Qed.

Lemma send_all_one_failure_metrics_witness :
  let env := {| smtp_connect := None; smtp_starttls := None;
                smtp_login := fun _ _ => None;
                smtp_send := fun i _ => if Nat.eqb i 1 then Some (lit "550 rejected") else None;
                smtp_quit := None; ui_setup := None; ui_progress := fun _ => None;
                ui_status := fun _ => None; ui_done := None |} in
  let df := {| columns := [lit "name"; lit "email"];
               rows := [[CStr (lit "Ana"); CStr (lit "a@b.com")];
                        [CStr (lit "Bo"); CStr (lit "bo@c.org")];
                        [CStr (lit "Cy"); CStr (lit "c@d.org")]] |} in
  metrics (email_results (run env (lit "Hi {{name}}") false df (lit "me@x.com") (lit "pw")
                              (lit "Hello") [])) = (3, 2, 1).
Proof.
  intros env df.
  refine (send_all_one_failure_metrics env (lit "Hi {{name}}") false df (lit "me@x.com")
            (lit "pw") (lit "Hello") [] 1 (lit "550 rejected")
            eq_refl _ _ eq_refl eq_refl eq_refl eq_refl (fun _ => eq_refl)
            (fun _ => eq_refl) (fun _ => eq_refl) _ _).
  - simpl. auto.
  - simpl. auto.
  - intros i m Hi. simpl. destruct (Nat.eqb_spec i 1); [contradiction|reflexivity].
  - simpl. lia.
Defined.

(** ** The preview *)

(** X19.  "Generate Preview" raises exactly on a table without rows (which
    the guard of line 146 excludes); otherwise the previewed content is what
    "Send All Emails" sends to the first recipient: the message sent for the
    row of index 0 has the previewed content as its body, the previewed
    content type, and goes to the e-mail of the previewed recipient. *)
Theorem preview_is_first_message template_content is_html df :
  (rows df <> [] <-> exists p, generate_preview template_content is_html df = Ret p) /\
  forall env sender_email sender_password email_subject previous p m,
    In (lit "name") (columns df) -> In (lit "email") (columns df) ->
    generate_preview template_content is_html df = Ret p ->
    In (EvSend 0 m)
       (trace (run env template_content is_html df sender_email sender_password
                   email_subject previous)) ->
    msg_body m = Preview.content p /\
    msg_html m = Preview.is_html p /\
    dict_get (Preview.recipient p) (lit "email") = Some (msg_to m).
Proof.
  unfold generate_preview, first_row. split.
  - destruct (rows df) as [|row l]; cbn [rbind].
    + split; [congruence|]. intros [p H]. discriminate H.
    + split; [|discriminate]. intros _. eexists. reflexivity.
  - intros env sender_email sender_password email_subject previous p m Hn He Hp Hm.
    destruct (in_trace_send _ _ _ _ _ _ _ _ _ _ Hn He Hm) as (row & Hrow & ->).
    destruct (rows df) as [|row0 l]; cbn [rbind] in Hp; [discriminate|].
    injection Hp as <-. cbn in Hrow. injection Hrow as <-.
    cbn [Preview.content Preview.is_html Preview.recipient row_message msg_body
         msg_html msg_to].
    repeat split.
    pose proof (dict_has_to_dict (columns df) row0 (lit "email") He) as Hhas.
    unfold dict_has in Hhas.
    destruct (dict_get (to_dict (columns df) row0) (lit "email")); [reflexivity|].
    discriminate.
Qed.

Lemma preview_is_first_message_witness :
  exists p,
    generate_preview (lit "Hi {{name}}") false
      {| columns := [lit "name"; lit "email"];
         rows := [[CStr (lit "Ana"); CStr (lit "a@b.com")]] |} = Ret p.
Proof.
  refine (proj1 (proj1 (preview_is_first_message (lit "Hi {{name}}") false
                          {| columns := [lit "name"; lit "email"];
                             rows := [[CStr (lit "Ana"); CStr (lit "a@b.com")]] |})) _).
  discriminate.
Defined.

(** ** The "Test Connection" button *)

(** X20.  "Test Connection" reports success exactly when both fields are
    filled, the address passes the format check and the four calls (connect,
    TLS upgrade, login, quit) return; it calls [server.quit()] exactly when
    connect, upgrade and login returned, so a connection whose upgrade or
    login fails is not closed; and with an empty field or an address that
    fails the format check it makes no call to the transport at all. *)
Theorem test_connection_outcome env sender_email sender_password :
  let r := main_test_connection env sender_email sender_password in
  (r.2 = ConnectionSuccessful <->
   sender_password <> [] /\ validate_email sender_email = true /\
   smtp_connect env = None /\ smtp_starttls env = None /\
   smtp_login env sender_email sender_password = None /\ smtp_quit env = None) /\
  (In EvQuit r.1 <->
   sender_password <> [] /\ validate_email sender_email = true /\
   smtp_connect env = None /\ smtp_starttls env = None /\
   smtp_login env sender_email sender_password = None) /\
  (r.2 = MissingCredentials <-> sender_email = [] \/ sender_password = []) /\
  (r.2 = InvalidFormat <->
   sender_email <> [] /\ sender_password <> [] /\ validate_email sender_email = false) /\
  (sender_password = [] \/ validate_email sender_email = false -> r.1 = []).
Proof.
  assert (Hnil : validate_email [] = false) by reflexivity.
  unfold main_test_connection.
  destruct sender_email as [|c s]; destruct sender_password as [|c' p];
    try (cbn [fst snd]; rewrite ?Hnil; repeat split; intros;
         repeat match goal with
                | H : _ /\ _ |- _ => destruct H
                | H : _ \/ _ |- _ => destruct H
                | H : In _ [] |- _ => destruct H
                end; try discriminate; try congruence; auto; fail).
  destruct (validate_email (c :: s)) eqn:Hv; cbn [negb].
  - unfold test_session, bind, call, emit, outcome, initial_state.
    cbn [email_results trace app].
    destruct (smtp_connect env) as [e1|]; cbn;
      [|destruct (smtp_starttls env) as [e2|]; cbn;
        [|destruct (smtp_login env (c :: s) (c' :: p)) as [e3|]; cbn;
          [|destruct (smtp_quit env) as [e4|]; cbn]]];
      repeat split; intros;
      repeat match goal with
             | H : _ /\ _ |- _ => destruct H
             | H : _ \/ _ |- _ => destruct H
             | H : False |- _ => destruct H
             end; try discriminate; try congruence; auto 10.
  - cbn [fst snd]. repeat split; intros;
      repeat match goal with
             | H : _ /\ _ |- _ => destruct H
             | H : _ \/ _ |- _ => destruct H
             | H : In _ [] |- _ => destruct H
             end; try discriminate; try congruence; auto.
Qed.

Lemma test_connection_outcome_witness :
  main_test_connection
    {| smtp_connect := None; smtp_starttls := None;
       smtp_login := fun _ _ => Some (lit "535 bad credentials");
       smtp_send := fun _ _ => None; smtp_quit := None; ui_setup := None;
       ui_progress := fun _ => None; ui_status := fun _ => None; ui_done := None |}
    (lit "me@x.com") [] = ([], MissingCredentials).
Proof.
  pose proof (test_connection_outcome
                {| smtp_connect := None; smtp_starttls := None;
                   smtp_login := fun _ _ => Some (lit "535 bad credentials");
                   smtp_send := fun _ _ => None; smtp_quit := None; ui_setup := None;
                   ui_progress := fun _ => None; ui_status := fun _ => None;
                   ui_done := None |}
                (lit "me@x.com") []) as (_ & _ & Hm & _ & He).
  cbv zeta in Hm, He.
  destruct (main_test_connection _ (lit "me@x.com") []) as [tr notice].
  cbn [fst snd] in Hm, He. f_equal.
  - apply He. left. reflexivity.
  - apply Hm. right. reflexivity.
Defined.
